(** * Beta-decay teaching simulation: embedding of [main.cpp]

    The program computes on C++ [float] and [int].  Every function of the
    source is embedded once, over an interface [Arith] that lists the
    [float] operations the source uses; [int] is [Z] (every integer the
    program forms lies between -255 and 255, far from wrap-around).

    The interface is interpreted by [B32]: IEEE-754 binary32, round to
    nearest even, as the machine computes (signed zeros, infinities and NaN
    included).  The math library's [cos] and [sin] are parameters of the
    interpretation: the C++ standard does not fix their results.

    Properties of control flow and of the data structures are proved for
    every interpretation of the interface; properties that depend on the
    numbers are proved on [B32], for every math library unless said
    otherwise.

    The random engine [std::mt19937] and the three distributions drawn
    from it are an interface as well ([Random]): the engine state is
    threaded explicitly through every call that draws from it.

    Rendering (SFML shapes, text, colours of the HUD) is left out, except
    for the geometry that the hit test reads back. *)

From Stdlib Require Import ZArith List Bool String Lia.
From Stdlib Require Import Floats.SpecFloat.
Import ListNotations.

Set Implicit Arguments.

(** ** The [float] operations used by the source *)

Class Arith : Type := {
  F : Type;
  fadd : F -> F -> F;
  fsub : F -> F -> F;
  fmul : F -> F -> F;
  fdiv : F -> F -> F;
  fneg : F -> F;
  fsqrt : F -> F;              (* std::sqrt *)
  fabs : F -> F;               (* std::abs on float *)
  fcos : F -> F;               (* std::cos *)
  fsin : F -> F;               (* std::sin *)
  fleb : F -> F -> bool;       (* a <= b *)
  fltb : F -> F -> bool;       (* a < b *)
  of_int : Z -> F              (* conversion int -> float *)
}.

Declare Scope float_scope.
Delimit Scope float_scope with fl.
Infix "+" := fadd : float_scope.
Infix "-" := fsub : float_scope.
Infix "*" := fmul : float_scope.
Infix "/" := fdiv : float_scope.
Notation "- a" := (fneg a) : float_scope.
Infix "<=?" := fleb : float_scope.
Infix "<?" := fltb : float_scope.
(* C++ [a >= b] and [a > b] are [b <= a] and [b < a], also on NaN *)
Notation "a >=? b" := (fleb b a) (at level 70) : float_scope.
Notation "a >? b" := (fltb b a) (at level 70) : float_scope.

Section Program.

Context {A : Arith}.
Local Open Scope float_scope.

(** A decimal literal [p/q] of the source, with [p] and [q] integers that
    [float] holds exactly: under [B32] the correctly rounded quotient is the
    [float] nearest to the decimal, which is what the literal denotes. *)
Definition lit (p q : Z) : F := of_int p / of_int q.

Definition f0 : F := of_int 0.
Definition f1 : F := of_int 1.

(** std::min, std::max and std::clamp as the standard library defines them *)
Definition fmin (a b : F) : F := if b <? a then b else a.
Definition fmax (a b : F) : F := if a <? b then b else a.
Definition fclamp (v lo hi : F) : F :=
  if v <? lo then lo else if hi <? v then hi else v.

(** ** sf::Vector2f and the vector helpers *)

Record Vector2f : Type := V2 { x : F; y : F }.

Definition vadd (a b : Vector2f) : Vector2f := V2 (a.(x) + b.(x)) (a.(y) + b.(y)).
Definition vsub (a b : Vector2f) : Vector2f := V2 (a.(x) - b.(x)) (a.(y) - b.(y)).
Definition vscale (a : Vector2f) (k : F) : Vector2f := V2 (a.(x) * k) (a.(y) * k).
Definition vneg (a : Vector2f) : Vector2f := V2 (- a.(x)) (- a.(y)).

Definition vlen (v : Vector2f) : F :=
  fsqrt (v.(x) * v.(x) + v.(y) * v.(y)).

Definition vnorm (v : Vector2f) : Vector2f :=
  let l := vlen v in
  if l <=? lit 1 1000000 then V2 f0 f0
  else V2 (v.(x) / l) (v.(y) / l).

Definition vdot (a b : Vector2f) : F := a.(x) * b.(x) + a.(y) * b.(y).
Definition vperp (v : Vector2f) : Vector2f := V2 (- v.(y)) v.(x).

Definition dist2 (a b : Vector2f) : F :=
  let dx := a.(x) - b.(x) in
  let dy := a.(y) - b.(y) in
  dx * dx + dy * dy.

Definition hitCircle (mouse center : Vector2f) (r : F) : bool :=
  dist2 mouse center <=? r * r.

Definition pointSegmentDistance (p a b : Vector2f) : F :=
  let ab := vsub b a in
  let ab2 := vdot ab ab in
  if ab2 <=? lit 1 1000000 then vlen (vsub p a)
  else
    let t := vdot (vsub p a) ab / ab2 in
    let t := fclamp t f0 f1 in
    let proj := vadd a (vscale ab t) in
    vlen (vsub p proj).

Definition signf (v : F) : Z := if v >=? f0 then 1 else -1.

Definition helicitySign (spinDir momDir : Vector2f) : Z :=
  signf (vdot spinDir momDir).

(** ** Particles, decay events, modes *)

(* sf::Color: four 8-bit channels *)
Record Color : Type := RGBA { red : Z; green : Z; blue : Z; alpha : Z }.
Definition RGB (r g b : Z) : Color := RGBA r g b 255.
Definition White : Color := RGB 255 255 255.

Record Particle : Type := mkParticle {
  name : string;
  pos : Vector2f;
  vel : Vector2f;       (* momentum direction is normalized vel *)
  spinDir : Vector2f;   (* spin direction unit vector *)
  radius : F;
  color : Color;
  trail : list Vector2f;
  trailTimer : F
}.

(* a default-constructed Particle *)
Definition Particle0 : Particle :=
  mkParticle "" (V2 f0 f0) (V2 f0 f0) (V2 f0 f0) (of_int 8) White [] f0.

Record DecayEvent : Type := mkEvent {
  electron : Particle;
  antinu : Particle;
  protonSpinSign : Z;   (* toy +1 or -1 *)
  neutronSpinSign : Z;
  L_needed : Z;         (* toy orbital term *)
  timeAlive : F;
  duration : F
}.

Definition DecayEvent0 : DecayEvent :=
  mkEvent Particle0 Particle0 0 1 0 f0 (of_int 3).

Inductive Mode : Type :=
| SpinOnly            (* = 1 *)
| SpinAndMotion       (* = 2 *)
| FullConservation.   (* = 3 *)

Definition Mode_eqb (m n : Mode) : bool :=
  match m, n with
  | SpinOnly, SpinOnly | SpinAndMotion, SpinAndMotion
  | FullConservation, FullConservation => true
  | _, _ => false
  end.

(** ** drawOrbitalSwirl: the vertices handed to the renderer, [None] when
    the function returns without drawing *)

Record Vertex : Type := mkVertex { position : Vector2f; vcolor : Color }.

Definition drawOrbitalSwirl (center : Vector2f) (L : Z) (time : F)
  : option (list Vertex) :=
  let mag := Z.abs L in
  if (mag =? 0)%Z then None
  else
    let baseR := of_int 22 in
    let r := baseR + of_int mag * of_int 10 in
    let points := 140%Z in
    let turns := of_int 2 + lit 1 2 * of_int mag in
    let phase := time * lit 22 10 * (if (L >? 0)%Z then of_int 1 else of_int (-1)) in
    let col :=
      if (L =? 0)%Z then RGBA 120 220 140 130
      else RGBA 230 120 120 ((40 + mag * 20) mod 256) in
    Some (map (fun i : nat =>
                 let a := (of_int (Z.of_nat i) / of_int points)
                          * (of_int 2 * lit 15707963 5000000) * turns + phase in
                 let rr := r + fsin (a * lit 12 10) * of_int 5 in
                 mkVertex (V2 (center.(x) + fcos a * rr) (center.(y) + fsin a * rr)) col)
              (seq 0 141)).

End Program.

Arguments Vector2f : clear implicits.
Arguments Particle : clear implicits.
Arguments DecayEvent : clear implicits.
Arguments Vertex : clear implicits.

(** ** The random engine

    [std::mt19937& rng] is passed by reference and advanced by every draw;
    here each distribution maps an engine state to the value drawn and the
    next state.  [angleDist] is [uniform_real_distribution(-0.35, 0.35)],
    [u01] is [uniform_real_distribution(0, 1)], [pm01] is
    [uniform_int_distribution(0, 1)]. *)

Class Random (A : Arith) : Type := {
  Rng : Type;
  angleDist : Rng -> F * Rng;
  u01 : Rng -> F * Rng;
  pm01 : Rng -> Z * Rng
}.

Section Generator.

Context {A : Arith} {RS : Random A}.
Local Open Scope float_scope.

Definition makeEvent (rng : Rng) (origin : Vector2f A) (leftHandBias : F)
  (mode : Mode) : DecayEvent A * Rng :=
  (* Mostly rightward electron momentum *)
  let '(a, rng) := angleDist rng in
  let dirE := V2 (fcos a) (fsin a) in
  let dirE := vnorm dirE in
  let dirNu := vnorm (vneg dirE) in
  (* Electron spin: biased left-handed (spin opposite momentum) *)
  let '(u, rng) := u01 rng in
  let wantLeft := u <? leftHandBias in
  let spinE := if wantLeft then vnorm (vneg dirE) else vnorm dirE in
  (* Anti-neutrino forced right-handed (spin aligned with its momentum) *)
  let spinNu := vnorm dirNu in
  let e := mkParticle "e-" origin (vscale dirE (of_int 260)) spinE
             (of_int 8) (RGB 240 210 80) [] f0 in
  let n := mkParticle "anti-nu" origin (vscale dirNu (of_int 260)) spinNu
             (of_int 6) (RGB 120 190 255) [] f0 in
  let '(c, rng) := pm01 rng in
  let sP := if (c =? 0)%Z then (-1)%Z else 1%Z in
  (* MODE 1: enforce the oversimplified myth: spins are always opposite *)
  let n :=
    match mode with
    | SpinOnly =>
        mkParticle n.(name) n.(pos) n.(vel) (vnorm (vneg e.(spinDir)))
          n.(radius) n.(color) n.(trail) n.(trailTimer)
    | _ => n
    end in
  (* Toy integer bookkeeping for L_needed *)
  let neutron := 1%Z in
  let sE := if e.(spinDir).(y) >=? f0 then 1%Z else (-1)%Z in
  let sN := if n.(spinDir).(y) >=? f0 then 1%Z else (-1)%Z in
  (mkEvent e n sP neutron (neutron - (sP + sE + sN))%Z f0 (of_int 3), rng).

Definition modeTitle (m : Mode) : string :=
  match m with
  | SpinOnly => "MODE 1: Spin only (textbook shortcut)"
  | SpinAndMotion => "MODE 2: Add motion (helicity appears)"
  | FullConservation => "MODE 3: Full conservation (orbital placeholder shown)"
  end.

End Generator.

(** ** The main loop

    One iteration of [while (window.isOpen())] is [frame]: it receives what
    the window delivers in that iteration (the clock reading [dtReal], the
    pending events in polling order, the pointer position) and the state of
    the local variables of [main], and returns their new state and what the
    iteration computed for display. *)

(* sf::Keyboard::Key, the codes the loop reads and one for all the others *)
Module Key.
Inductive Key : Type :=
| Num1 | Num2 | Num3 | Space | Up | Down | P | N | H | Other.
End Key.

Inductive Event : Type :=
| Closed
| KeyPressed (code : Key.Key)
| OtherEvent.

(* the text constants of [main], by name *)
Inductive Text : Type :=
| NoText
| TIP_NEUTRON_TITLE | TIP_NEUTRON_BODY
| TIP_PROTON_TITLE | TIP_PROTON_BODY
| TIP_ELECTRON_TITLE | TIP_ELECTRON_BODY
| TIP_ANTINU_TITLE | TIP_ANTINU_BODY
| TIP_MOM_TITLE | TIP_MOM_BODY
| TIP_SPIN_TITLE | TIP_SPIN_BODY
| TIP_SWIRL_TITLE | TIP_SWIRL_BODY.

Record Tooltip : Type := mkTip { title : Text; body : Text; active : bool }.

Definition Tooltip0 : Tooltip := mkTip NoText NoText false.

Section MainLoop.

Context {A : Arith} {RS : Random A}.
Local Open Scope float_scope.

Record State : Type := mkState {
  windowOpen : bool;
  mode : Mode;
  paused : bool;
  stepOnce : bool;
  showHelp : bool;
  leftHandBias : F;
  current : DecayEvent A;
  t : F;
  rng : Rng
}.

Definition arena_position : Vector2f A := V2 (of_int 60) (of_int 60).
Definition arena_size : Vector2f A := V2 (of_int 980) (of_int 580).

Definition origin : Vector2f A :=
  V2 (arena_position.(x) + of_int 140)
     (arena_position.(y) + arena_size.(y) * lit 1 2).

Definition protonPos : Vector2f A := V2 (origin.(x) + of_int 40) origin.(y).

(* the state before the first iteration *)
Definition initState (rng0 : Rng) : State :=
  let bias := lit 85 100 in
  let '(ev, r) := makeEvent rng0 origin bias SpinOnly in
  mkState true SpinOnly false false true bias ev f0 r.

(* [current = makeEvent(rng, origin, leftHandBias, mode)] *)
Definition respawn (s : State) : State :=
  let '(ev, r) := makeEvent s.(rng) origin s.(leftHandBias) s.(mode) in
  mkState s.(windowOpen) s.(mode) s.(paused) s.(stepOnce) s.(showHelp)
          s.(leftHandBias) ev s.(t) r.

Definition setMode (m : Mode) (s : State) : State :=
  mkState s.(windowOpen) m s.(paused) s.(stepOnce) s.(showHelp)
          s.(leftHandBias) s.(current) s.(t) s.(rng).

Definition setBias (b : F) (s : State) : State :=
  mkState s.(windowOpen) s.(mode) s.(paused) s.(stepOnce) s.(showHelp)
          b s.(current) s.(t) s.(rng).

Definition setPaused (b : bool) (s : State) : State :=
  mkState s.(windowOpen) s.(mode) b s.(stepOnce) s.(showHelp)
          s.(leftHandBias) s.(current) s.(t) s.(rng).

Definition setStepOnce (b : bool) (s : State) : State :=
  mkState s.(windowOpen) s.(mode) s.(paused) b s.(showHelp)
          s.(leftHandBias) s.(current) s.(t) s.(rng).

Definition setShowHelp (b : bool) (s : State) : State :=
  mkState s.(windowOpen) s.(mode) s.(paused) s.(stepOnce) b
          s.(leftHandBias) s.(current) s.(t) s.(rng).

Definition setWindowOpen (b : bool) (s : State) : State :=
  mkState b s.(mode) s.(paused) s.(stepOnce) s.(showHelp)
          s.(leftHandBias) s.(current) s.(t) s.(rng).

Definition setCurrent (ev : DecayEvent A) (s : State) : State :=
  mkState s.(windowOpen) s.(mode) s.(paused) s.(stepOnce) s.(showHelp)
          s.(leftHandBias) ev s.(t) s.(rng).

Definition setT (v : F) (s : State) : State :=
  mkState s.(windowOpen) s.(mode) s.(paused) s.(stepOnce) s.(showHelp)
          s.(leftHandBias) s.(current) v s.(rng).

(* the two [if / else if] chains run on a key press *)
Definition handleKey (k : Key.Key) (s : State) : State :=
  (* Mode switches *)
  let s :=
    match k with
    | Key.Num1 => respawn (setMode SpinOnly s)
    | Key.Num2 => respawn (setMode SpinAndMotion s)
    | Key.Num3 => respawn (setMode FullConservation s)
    | _ => s
    end in
  (* Controls *)
  match k with
  | Key.Space => respawn s
  | Key.Up => respawn (setBias (fmin (lit 99 100) (s.(leftHandBias) + lit 2 100)) s)
  | Key.Down => respawn (setBias (fmax (lit 1 100) (s.(leftHandBias) - lit 2 100)) s)
  | Key.P => setPaused (negb s.(paused)) s
  | Key.N => if s.(paused) then setStepOnce true s else s
  | Key.H => setShowHelp (negb s.(showHelp)) s
  | _ => s
  end.

Definition handleEvent (s : State) (ev : Event) : State :=
  match ev with
  | Closed => setWindowOpen false s
  | KeyPressed k => handleKey k s
  | OtherEvent => s
  end.

(* [while (auto ev = window.pollEvent())] *)
Definition pollEvents (s : State) (evs : list Event) : State :=
  fold_left handleEvent evs s.

(* the simulated step of this iteration and the [stepOnce] flag after it *)
Definition frameDt (s : State) (dtReal : F) : F * bool :=
  if s.(paused) then
    if s.(stepOnce) then (f1 / of_int 60, false) else (f0, s.(stepOnce))
  else (dtReal, s.(stepOnce)).

(* Update timing: only advance and auto-respawn when not paused *)
Definition updateTiming (dt : F) (s : State) : State :=
  if dt >? f0 then
    let ev := s.(current) in
    let ev := mkEvent ev.(electron) ev.(antinu) ev.(protonSpinSign)
                ev.(neutronSpinSign) ev.(L_needed) (ev.(timeAlive) + dt)
                ev.(duration) in
    let s := setCurrent ev s in
    if ev.(timeAlive) >=? ev.(duration) then respawn s else s
  else s.

Definition TRAIL_CAP : nat := 70.

Definition stepParticle (dt : F) (p : Particle A) : Particle A :=
  if dt <=? f0 then p
  else
    let pos1 := vadd p.(pos) (vscale p.(vel) dt) in
    let timer := p.(trailTimer) + dt in
    let '(timer, tr) :=
      if timer >=? lit 2 100 then
        let tr := p.(trail) ++ [pos1] in
        (f0, if (TRAIL_CAP <? List.length tr)%nat then tl tr else tr)
      else (timer, p.(trail)) in
    let left := arena_position.(x) in
    let top := arena_position.(y) in
    let right := arena_position.(x) + arena_size.(x) in
    let bottom := arena_position.(y) + arena_size.(y) in
    let r := p.(radius) in
    let '(px, vx) :=
      if pos1.(x) <? left + r then (left + r, p.(vel).(x) * - f1)
      else (pos1.(x), p.(vel).(x)) in
    let '(px, vx) :=
      if px >? right - r then (right - r, vx * - f1) else (px, vx) in
    let '(py, vy) :=
      if pos1.(y) <? top + r then (top + r, p.(vel).(y) * - f1)
      else (pos1.(y), p.(vel).(y)) in
    let '(py, vy) :=
      if py >? bottom - r then (bottom - r, vy * - f1) else (py, vy) in
    mkParticle p.(name) (V2 px py) (V2 vx vy) (vnorm p.(spinDir))
               r p.(color) tr timer.

Definition stepParticles (dt : F) (s : State) : State :=
  let ev := s.(current) in
  setCurrent (mkEvent (stepParticle dt ev.(electron)) (stepParticle dt ev.(antinu))
                ev.(protonSpinSign) ev.(neutronSpinSign) ev.(L_needed)
                ev.(timeAlive) ev.(duration)) s.

(* struct Seg: kind 0 momentum, 1 spin *)
Record Seg : Type := mkSeg { seg_a : Vector2f A; seg_b : Vector2f A; kind : Z }.

(* the segments [drawVectors] registers for one particle *)
Definition drawVectors (m : Mode) (p : Particle A) : list Seg :=
  let momDir := vnorm p.(vel) in
  let spinD := vnorm p.(spinDir) in
  match m with
  | SpinOnly =>
      let a := p.(pos) in
      let b := vadd p.(pos) (vscale spinD (of_int 55)) in
      [mkSeg a b 1]
  | _ =>
      let a := p.(pos) in
      let b := vadd p.(pos) (vscale momDir (of_int 60)) in
      let off := vscale (vperp momDir) (of_int 10) in
      let a' := vadd p.(pos) off in
      let b' := vadd a' (vscale spinD (of_int 48)) in
      [mkSeg a b 0; mkSeg a' b' 1]
  end.

(* Hover: dots *)
Definition hoverDots (mouse : Vector2f A) (ev : DecayEvent A) : Tooltip :=
  if hitCircle mouse origin (of_int 24) then mkTip TIP_NEUTRON_TITLE TIP_NEUTRON_BODY true
  else if hitCircle mouse protonPos (of_int 20) then mkTip TIP_PROTON_TITLE TIP_PROTON_BODY true
  else if hitCircle mouse ev.(electron).(pos) (of_int 18) then mkTip TIP_ELECTRON_TITLE TIP_ELECTRON_BODY true
  else if hitCircle mouse ev.(antinu).(pos) (of_int 16) then mkTip TIP_ANTINU_TITLE TIP_ANTINU_BODY true
  else Tooltip0.

(* Hover: swirl (Mode 3 only) *)
Definition hoverSwirl (m : Mode) (mouse : Vector2f A) (ev : DecayEvent A)
  (tip : Tooltip) : Tooltip :=
  if negb tip.(active) && Mode_eqb m FullConservation then
    let d := vlen (vsub mouse origin) in
    let targetR := of_int 22 + of_int (Z.abs ev.(L_needed)) * of_int 10 in
    if fabs (d - targetR) <? of_int 14 then mkTip TIP_SWIRL_TITLE TIP_SWIRL_BODY true
    else tip
  else tip.

(* the [for] loop over [segs], left at the first hit *)
Fixpoint scanSegs (mouse : Vector2f A) (segs : list Seg) (tip : Tooltip) : Tooltip :=
  match segs with
  | [] => tip
  | s :: rest =>
      let d := pointSegmentDistance mouse s.(seg_a) s.(seg_b) in
      if d <? of_int 8 then
        if (s.(kind) =? 0)%Z then mkTip TIP_MOM_TITLE TIP_MOM_BODY true
        else mkTip TIP_SPIN_TITLE TIP_SPIN_BODY true
      else scanSegs mouse rest tip
  end.

(* Hover: arrows *)
Definition hoverArrows (mouse : Vector2f A) (segs : list Seg) (tip : Tooltip) : Tooltip :=
  if negb tip.(active) then scanSegs mouse segs tip else tip.

Definition resolveTooltip (m : Mode) (mouse : Vector2f A) (ev : DecayEvent A)
  (segs : list Seg) : Tooltip :=
  hoverArrows mouse segs (hoverSwirl m mouse ev (hoverDots mouse ev)).

(* what one iteration computes for display *)
Record FrameOut : Type := mkOut {
  out_dt : F;
  spinDot : F;
  claimLooksTrue : bool;
  hE : Z;
  hN : Z;
  swirl : option (list (Vertex A));
  segs : list Seg;
  tip : Tooltip
}.

Definition frame (s : State) (dtReal : F) (evs : list Event) (mouse : Vector2f A)
  : State * FrameOut :=
  let '(dt, so) := frameDt s dtReal in
  let s := setStepOnce so s in
  let s := setT (s.(t) + dt) s in
  let s := pollEvents s evs in
  let s := updateTiming dt s in
  let s := stepParticles dt s in
  let ev := s.(current) in
  let sd := vdot (vnorm ev.(electron).(spinDir)) (vnorm ev.(antinu).(spinDir)) in
  let claim := sd <? - lit 2 10 in
  let he := helicitySign (vnorm ev.(electron).(spinDir)) (vnorm ev.(electron).(vel)) in
  let hn := helicitySign (vnorm ev.(antinu).(spinDir)) (vnorm ev.(antinu).(vel)) in
  let sw :=
    match s.(mode) with
    | FullConservation => drawOrbitalSwirl origin ev.(L_needed) s.(t)
    | _ => None
    end in
  let sg := drawVectors s.(mode) ev.(electron) ++ drawVectors s.(mode) ev.(antinu) in
  (s, mkOut dt sd claim he hn sw sg (resolveTooltip s.(mode) mouse ev sg)).

(* the loop: iterations run while the window is open *)
Fixpoint run (s : State) (inputs : list (F * list Event * Vector2f A))
  : State * list FrameOut :=
  match inputs with
  | [] => (s, [])
  | (dtReal, evs, mouse) :: rest =>
      if s.(windowOpen) then
        let '(s1, o) := frame s dtReal evs mouse in
        let '(s2, os) := run s1 rest in
        (s2, o :: os)
      else (s, [])
  end.

End MainLoop.

(** ** The interpretation: IEEE-754 binary32

    [float] is binary32: 24 bits of precision, [emax = 128].  [std::cos] and
    [std::sin] belong to the platform's math library and stay parameters. *)

Definition prec32 : Z := 24.
Definition emax32 : Z := 128.

Definition B32 (cosf sinf : spec_float -> spec_float) : Arith := {|
  F := spec_float;
  fadd := SFadd prec32 emax32;
  fsub := SFsub prec32 emax32;
  fmul := SFmul prec32 emax32;
  fdiv := SFdiv prec32 emax32;
  fneg := SFopp;
  fsqrt := SFsqrt prec32 emax32;
  fabs := SFabs;
  fcos := cosf;
  fsin := sinf;
  fleb := SFleb;
  fltb := SFltb;
  of_int := fun n => binary_normalize prec32 emax32 n 0 false
|}.

(** ** The trail as a bounded queue *)

(* what [push_back] followed by the capped [erase(begin())] leaves *)
Definition pushCapped {T : Type} (tr : list T) (v : T) : list T :=
  if (TRAIL_CAP <? List.length (tr ++ [v]))%nat then tl (tr ++ [v]) else tr ++ [v].

(* number of samples a step appends to a trail that is below the cap *)
Definition appended {A : Arith} (p p' : Particle A) : nat :=
  (List.length p'.(trail) - List.length p.(trail))%nat.

(** The property of frame-rate independence of the trail, as a proposition:
    two steps append as many samples as one step of the summed time. *)
Definition trail_density_independent (A : Arith) : Prop :=
  forall (p : Particle A) (dt1 dt2 : F),
    fltb f0 dt1 = true -> fltb f0 dt2 = true ->
    (List.length p.(trail) + 2 <= TRAIL_CAP)%nat ->
    appended p (stepParticle dt2 (stepParticle dt1 p))
    = appended p (stepParticle (fadd dt1 dt2) p).

(* both trails of the live event hold at most [TRAIL_CAP] samples *)
Definition trails_bounded {A : Arith} {RS : Random A} (s : State) : Prop :=
  (List.length s.(current).(electron).(trail) <= TRAIL_CAP)%nat /\
  (List.length s.(current).(antinu).(trail) <= TRAIL_CAP)%nat.

(* the position a step of [dt] moves the particle to, before reflection *)
Definition advanced {A : Arith} (dt : F) (p : Particle A) : Vector2f A :=
  vadd p.(pos) (vscale p.(vel) dt).

(** ** The hit-test rules as the specification lists them

    Rules 1 to 5 are pairs of a test and the tooltip it selects, tried in
    order; rule 6 scans the registered segments in drawing order. *)

Definition neutronTip : Tooltip := mkTip TIP_NEUTRON_TITLE TIP_NEUTRON_BODY true.
Definition protonTip : Tooltip := mkTip TIP_PROTON_TITLE TIP_PROTON_BODY true.
Definition electronTip : Tooltip := mkTip TIP_ELECTRON_TITLE TIP_ELECTRON_BODY true.
Definition antinuTip : Tooltip := mkTip TIP_ANTINU_TITLE TIP_ANTINU_BODY true.
Definition swirlTip : Tooltip := mkTip TIP_SWIRL_TITLE TIP_SWIRL_BODY true.
Definition momentumTip : Tooltip := mkTip TIP_MOM_TITLE TIP_MOM_BODY true.
Definition spinTip : Tooltip := mkTip TIP_SPIN_TITLE TIP_SPIN_BODY true.

Definition firstMatch (rules : list (bool * Tooltip)) (otherwise : Tooltip) : Tooltip :=
  match find fst rules with
  | Some r => snd r
  | None => otherwise
  end.

Section HitRules.

Context {A : Arith}.
Local Open Scope float_scope.

(* is the pointer within the hit band of segment [s]? *)
Definition hitSeg (mouse : Vector2f A) (s : Seg) : bool :=
  pointSegmentDistance mouse s.(seg_a) s.(seg_b) <? of_int 8.

(* is the pointer within the annular hit region of the swirl? *)
Definition hitSwirl (mouse : Vector2f A) (L : Z) : bool :=
  fabs (vlen (vsub mouse origin) - (of_int 22 + of_int (Z.abs L) * of_int 10))
  <? of_int 14.

Definition segTip (s : Seg) : Tooltip :=
  if (s.(kind) =? 0)%Z then momentumTip else spinTip.

Definition priorityRules (m : Mode) (mouse : Vector2f A) (ev : DecayEvent A)
  : list (bool * Tooltip) :=
  [ (hitCircle mouse origin (of_int 24), neutronTip);
    (hitCircle mouse protonPos (of_int 20), protonTip);
    (hitCircle mouse ev.(electron).(pos) (of_int 18), electronTip);
    (hitCircle mouse ev.(antinu).(pos) (of_int 16), antinuTip);
    (Mode_eqb m FullConservation && hitSwirl mouse ev.(L_needed), swirlTip) ].

Definition resolveByPriority (m : Mode) (mouse : Vector2f A) (ev : DecayEvent A)
  (sgs : list Seg) : Tooltip :=
  firstMatch (priorityRules m mouse ev)
    match find (hitSeg mouse) sgs with
    | Some s => segTip s
    | None => Tooltip0
    end.

End HitRules.

(** ** The arena and the reflection off its walls *)

Section Arena.

Context {A : Arith}.
Local Open Scope float_scope.

(* the four bounds [stepParticle] computes from the arena rectangle *)
Definition arena_left : F := arena_position.(x).
Definition arena_top : F := arena_position.(y).
Definition arena_right : F := arena_position.(x) + arena_size.(x).
Definition arena_bottom : F := arena_position.(y) + arena_size.(y).

(* the particle's disc fits between opposite walls *)
Definition fits (p : Particle A) : bool :=
  (arena_left + p.(radius) <=? arena_right - p.(radius))
  && (arena_top + p.(radius) <=? arena_bottom - p.(radius)).

(* the position lies within [left+r, right-r] x [top+r, bottom-r] *)
Definition inside (p : Particle A) : bool :=
  (arena_left + p.(radius) <=? p.(pos).(x))
  && (p.(pos).(x) <=? arena_right - p.(radius))
  && (arena_top + p.(radius) <=? p.(pos).(y))
  && (p.(pos).(y) <=? arena_bottom - p.(radius)).

(* one axis of the reflection, in the specification's words: a coordinate
   beyond a bound is clamped to it and the velocity component is negated *)
Definition reflectAxis (lo hi c v : F) : F * F :=
  if c <? lo then (lo, - v)
  else if hi <? c then (hi, - v)
  else (c, v).

End Arena.

(** ** Well-formed binary32 values *)

Definition is_nan (v : spec_float) : bool :=
  match v with S754_nan => true | _ => false end.

(* zero or finite: neither NaN nor an infinity *)
Definition is_finite (v : spec_float) : bool :=
  match v with S754_zero _ | S754_finite _ _ _ => true | _ => false end.

(* NaN, or a value whose sign bit is clear *)
Definition sign_clear (v : spec_float) : bool :=
  match v with
  | S754_zero s | S754_infinity s | S754_finite s _ _ => negb s
  | S754_nan => true
  end.

(** ** Concrete data used to run the program *)

(* a math library whose only known values are cos 0 = 1 and sin 0 = 0 *)
Definition cos_at0 (_ : spec_float) : spec_float :=
  binary_normalize prec32 emax32 1 0 false.
Definition sin_at0 (_ : spec_float) : spec_float :=
  binary_normalize prec32 emax32 0 0 false.

Definition M32 : Arith := B32 cos_at0 sin_at0.

(* an engine that always draws angle 0, u = 0 and the coin [c] *)
Definition constRandom (c : Z) : Random M32 := {|
  Rng := unit;
  angleDist := fun r => (S754_zero false : @F M32, r);
  u01 := fun r => (S754_zero false : @F M32, r);
  pm01 := fun r => (c, r)
|}.

(* binary32 values written as integers and as integer quotients *)
Definition z32 (n : Z) : @F M32 := binary_normalize prec32 emax32 n 0 false.
Definition q32 (p q : Z) : @F M32 := SFdiv prec32 emax32 (z32 p) (z32 q).

(* a particle at rest at [(px, py)] with an empty trail *)
Definition restingAt (px py : Z) : Particle M32 :=
  mkParticle "" (V2 (A:=M32) (z32 px) (z32 py)) (V2 (A:=M32) (z32 0) (z32 0))
             (V2 (A:=M32) (z32 1) (z32 0)) (z32 8) White [] (z32 0).

(* an event whose two particles rest at [(500, 100)], away from the centre *)
Definition farEvent (L : Z) : DecayEvent M32 :=
  mkEvent (restingAt 500 100) (restingAt 500 100) 1 1 L (z32 0) (z32 3).

(* a particle at rest whose trail is full: 70 samples, numbered 1 to 70 *)
Definition fullTrail : Particle M32 :=
  mkParticle "" (V2 (A:=M32) (z32 500) (z32 100)) (V2 (A:=M32) (z32 0) (z32 0))
             (V2 (A:=M32) (z32 1) (z32 0)) (z32 8) White
             (map (fun i => V2 (A:=M32) (z32 (Z.of_nat i)) (z32 0)) (seq 1 70))
             (z32 0).

(* a particle about to cross the right wall: at (1030, 350), moving right
   at 260 units per second *)
Definition nearRightWall : Particle M32 :=
  mkParticle "e-" (V2 (A:=M32) (z32 1030) (z32 350)) (V2 (A:=M32) (z32 260) (z32 0))
             (V2 (A:=M32) (z32 1) (z32 0)) (z32 8) White [] (z32 0).

(** ** Further parts of the source *)

Section MorePresentation.

Context {A : Arith}.
Local Open Scope float_scope.

(* the two bias updates of the Up and Down keys *)
Definition biasUp (b : F) : F := fmin (lit 99 100) (b + lit 2 100).
Definition biasDown (b : F) : F := fmax (lit 1 100) (b - lit 2 100).

End MorePresentation.

(* a close request among the events of one iteration *)
Definition is_closed (e : Event) : bool :=
  match e with Closed => true | _ => false end.

(* the live event is not terminal: its duration is 3 s and its age has not
   reached it *)
Definition live {A : Arith} {RS : Random A} (s : State) : Prop :=
  duration (current s) = of_int 3 /\
  fleb (duration (current s)) (timeAlive (current s)) = false.

(* the values the orbital term can take *)
Definition L_values : list Z := [-2; 0; 2; 4]%Z.

(** ** The bias values binary32 can reach

    Starting from 0.85, the Up and Down keys move the bias in steps of 0.02
    between the clamps 0.01 and 0.99.  On binary32 the values reached this
    way form a finite set, computed here by exploring both keys from 0.85
    until nothing new appears. *)

Definition sf_eqb (a b : spec_float) : bool :=
  match a, b with
  | S754_zero s1, S754_zero s2 => Bool.eqb s1 s2
  | S754_infinity s1, S754_infinity s2 => Bool.eqb s1 s2
  | S754_nan, S754_nan => true
  | S754_finite s1 m1 e1, S754_finite s2 m2 e2 =>
      Bool.eqb s1 s2 && Pos.eqb m1 m2 && Z.eqb e1 e2
  | _, _ => false
  end.

Definition sf_mem (a : spec_float) (l : list spec_float) : bool :=
  existsb (sf_eqb a) l.

Fixpoint bias_closure (fuel : nat) (todo seen : list spec_float)
  : list spec_float :=
  match fuel with
  | O => seen
  | S fuel' =>
      match todo with
      | [] => seen
      | b :: rest =>
          if sf_mem b seen then bias_closure fuel' rest seen
          else bias_closure fuel'
                 (biasUp (A:=M32) b :: biasDown (A:=M32) b :: rest) (b :: seen)
      end
  end.

Definition bias_values : list spec_float :=
  Eval vm_compute in bias_closure 2000 [q32 85 100] [].

(* every value of the set is within the clamps and both keys stay in the set *)
Definition bias_values_closed : bool :=
  forallb (fun b => sf_mem (biasUp (A:=M32) b) bias_values
                    && sf_mem (biasDown (A:=M32) b) bias_values
                    && SFleb (q32 1 100) b && SFleb b (q32 99 100))
          bias_values.

(** ** Staying inside the arena on binary32 *)

Section ArenaInvariant.

Variables cosf sinf : spec_float -> spec_float.
Context {RS : Random (B32 cosf sinf)}.

(* for every angle the engine draws, the math library gives a direction whose
   normalisation has finite components *)
Definition finite_direction : Prop :=
  forall r : Rng,
    let a : spec_float := fst (@angleDist (B32 cosf sinf) RS r) in
    is_finite (x (vnorm (V2 (A:=B32 cosf sinf) (cosf a) (sinf a)))) = true /\
    is_finite (y (vnorm (V2 (A:=B32 cosf sinf) (cosf a) (sinf a)))) = true.

(* radius [rad], a velocity without NaN, a position inside the arena *)
Definition well_placed (rad : Z) (p : Particle (B32 cosf sinf)) : Prop :=
  radius p = of_int rad /\
  is_nan (x (vel p)) = false /\ is_nan (y (vel p)) = false /\
  inside p = true.

Definition in_arena (s : @State (B32 cosf sinf) RS) : Prop :=
  well_placed 8 (electron (current s)) /\ well_placed 6 (antinu (current s)).

(* every frame of the input has a finite measured duration *)
Definition finite_frames
  (inputs : list (@F (B32 cosf sinf) * list Event * Vector2f (B32 cosf sinf)))
  : Prop :=
  Forall (fun i => is_finite (fst (fst i)) = true) inputs.

End ArenaInvariant.

(** ** Signs of binary32 values *)

(* NaN, a zero, or a value whose sign bit is [s] *)
Definition has_sign (s : bool) (v : spec_float) : bool :=
  match v with
  | S754_nan | S754_zero _ => true
  | S754_infinity s' | S754_finite s' _ _ => Bool.eqb s s'
  end.

Definition is_zero (v : spec_float) : bool :=
  match v with S754_zero _ => true | _ => false end.

(** ** Two math libraries, tabulated at one angle each

    The generator draws its angle from [-0.35, 0.35].  [cosf_near] and
    [sinf_near] return, at the angle 0.02774496 (bits 0x3ce34966), the
    binary32 values nearest to the exact cosine and sine (0x3f7fe6c7 and
    0x3ce341ef; the exact values lie within 0.03 units in the last place of
    them).  [cosf_off] returns, at the angle 0.10782724 (0x3ddcd487), the
    upper neighbour 0x3f7e8364 of the nearest value 0x3f7e8363 of the
    cosine, as a less accurate library may; [sinf_off] returns the nearest
    value 0x3ddc670b of the sine.  At every other angle the four functions
    return the values at angle 0. *)

Definition angle_near : spec_float := S754_finite false 14895462 (-29).

Definition cosf_near (a : spec_float) : spec_float :=
  if sf_eqb a angle_near then S754_finite false 16770759 (-24) else cos_at0 a.
Definition sinf_near (a : spec_float) : spec_float :=
  if sf_eqb a angle_near then S754_finite false 14893551 (-29) else sin_at0 a.


Definition N32 : Arith := B32 cosf_near sinf_near.

(* an engine that always draws the angle [a], the uniform value [u] and the
   coin [c] *)
Definition fixedRandom (cf sf : spec_float -> spec_float) (a u : spec_float)
  (c : Z) : Random (B32 cf sf) := {|
  Rng := unit;
  angleDist := fun r => (a : @F (B32 cf sf), r);
  u01 := fun r => (u : @F (B32 cf sf), r);
  pm01 := fun r => (c, r)
|}.

(* the engines of the two examples: u = 0.5 is below the bias 0.85, so the
   electron is generated left-handed *)
Definition nearRandom : Random N32 :=
  fixedRandom cosf_near sinf_near angle_near (q32 1 2) 1.

(** ** The forced spin pair of the spin-only mode *)

(* while the mode is SpinOnly the antineutrino's spin is the normalised
   negation of the electron's *)
Definition spin_forced {cosf sinf : spec_float -> spec_float}
  {RS : Random (B32 cosf sinf)} (s : @State (B32 cosf sinf) RS) : Prop :=
  mode s = SpinOnly ->
  spinDir (antinu (current s)) = vnorm (vneg (spinDir (electron (current s)))).

(** * Properties *)

(** ** The generator *)

Section GeneratorFacts.

Context {A : Arith} {RS : Random A}.
Local Open Scope float_scope.

Lemma makeEvent_kinematics (rng0 : Rng) (o : Vector2f A) (bias : F) (m : Mode) :
  let a := fst (angleDist rng0) in
  let u := fst (u01 (snd (angleDist rng0))) in
  let dirE := vnorm (V2 (fcos a) (fsin a)) in
  let ev := fst (makeEvent rng0 o bias m) in
  ev.(electron).(vel) = vscale dirE (of_int 260) /\
  ev.(antinu).(vel) = vscale (vnorm (vneg dirE)) (of_int 260) /\
  ev.(electron).(spinDir) = (if u <? bias then vnorm (vneg dirE) else vnorm dirE) /\
  ev.(antinu).(spinDir)
  = match m with
    | SpinOnly => vnorm (vneg ev.(electron).(spinDir))
    | _ => vnorm (vnorm (vneg dirE))
    end.
Proof.
  unfold makeEvent.
  destruct (angleDist rng0) as [a r1]. cbn [fst snd].
  destruct (u01 r1) as [u r2], (pm01 r2) as [c r3].
  destruct m; repeat split.
Qed.

(** C2: in every generated event the orbital term is
    [neutronSpinSign - (protonSpinSign + sign(electron.spinDir.y)
    + sign(antinu.spinDir.y))], read off the spin directions the event
    finally carries (after the SpinOnly override), with [sign] mapping
    [v >= 0] to +1 and anything else to -1; the neutron sign is +1; and with
    proton sign +1 and both spin y-components nonnegative the term is -2. *)
Theorem makeEvent_L_needed (rng0 : Rng) (o : Vector2f A) (bias : F) (m : Mode) :
  let ev := fst (makeEvent rng0 o bias m) in
  ev.(neutronSpinSign) = 1%Z /\
  ev.(L_needed)
  = (ev.(neutronSpinSign)
     - (ev.(protonSpinSign) + signf ev.(electron).(spinDir).(y)
        + signf ev.(antinu).(spinDir).(y)))%Z /\
  (ev.(protonSpinSign) = 1%Z ->
   (ev.(electron).(spinDir).(y) >=? f0) = true ->
   (ev.(antinu).(spinDir).(y) >=? f0) = true ->
   ev.(L_needed) = (-2)%Z).
Proof.
  unfold makeEvent.
  destruct (angleDist rng0) as [a r1].
  destruct (u01 r1) as [u r2].
  destruct (pm01 r2) as [c r3].
  destruct m; cbn -[vnorm Z.sub Z.add]; unfold signf;
    (split; [reflexivity | split; [reflexivity | intros Hp He Hn]]);
    rewrite He, Hn, Hp; reflexivity.
Qed.

End GeneratorFacts.

(** The scenario of C2 run on binary32: angle 0, left-handed electron,
    coin 1, full-conservation mode.  Both spins are (-1, -0); the
    y-component -0 passes the test [>= 0], as every zero does. *)
Lemma makeEvent_L_needed_witness :
  let ev := fst (makeEvent (RS:=constRandom 1) tt (origin (A:=M32)) (q32 85 100)
                   FullConservation) in
  ev.(protonSpinSign) = 1%Z /\
  (fleb (f0 (A:=M32)) ev.(electron).(spinDir).(y)) = true /\
  (fleb (f0 (A:=M32)) ev.(antinu).(spinDir).(y)) = true /\
  ev.(L_needed) = (-2)%Z.
Proof.
  pose proof (makeEvent_L_needed (RS:=constRandom 1) tt (origin (A:=M32))
                (q32 85 100) FullConservation) as H.
  cbv zeta in H. destruct H as (_ & _ & H).
  assert (Hp : protonSpinSign (fst (makeEvent (RS:=constRandom 1) tt (origin (A:=M32))
                (q32 85 100) FullConservation)) = 1%Z) by (vm_compute; reflexivity).
  assert (He : fleb (f0 (A:=M32))
                 (y (spinDir (electron (fst (makeEvent (RS:=constRandom 1) tt
                    (origin (A:=M32)) (q32 85 100) FullConservation))))) = true)
    by (vm_compute; reflexivity).
  assert (Hn : fleb (f0 (A:=M32))
                 (y (spinDir (antinu (fst (makeEvent (RS:=constRandom 1) tt
                    (origin (A:=M32)) (q32 85 100) FullConservation))))) = true)
    by (vm_compute; reflexivity).
  cbv zeta.
  split; [exact Hp | split; [exact He | split; [exact Hn | exact (H Hp He Hn)]]].
Defined.

(** ** The hit-test resolver *)

Section ResolverFacts.

Context {A : Arith} {RS : Random A}.
Local Open Scope float_scope.

Lemma scanSegs_find (mouse : Vector2f A) (sgs : list Seg) (tp : Tooltip) :
  scanSegs mouse sgs tp
  = match find (hitSeg mouse) sgs with Some s => segTip s | None => tp end.
Proof.
  induction sgs as [|s rest IH]; cbn [scanSegs find]; [reflexivity|].
  unfold hitSeg at 1. destruct (_ <? _); [reflexivity | exact IH].
Qed.

Lemma resolveTooltip_by_priority (m : Mode) (mouse : Vector2f A)
  (ev : DecayEvent A) (sgs : list Seg) :
  resolveTooltip m mouse ev sgs = resolveByPriority m mouse ev sgs.
Proof.
  unfold resolveTooltip, resolveByPriority, hoverArrows, hoverSwirl, hoverDots,
    firstMatch, priorityRules, hitSwirl.
  cbn [find fst snd].
  destruct (hitCircle mouse origin _); [reflexivity|].
  destruct (hitCircle mouse protonPos _); [reflexivity|].
  destruct (hitCircle mouse (pos (electron ev)) _); [reflexivity|].
  destruct (hitCircle mouse (pos (antinu ev)) _); [reflexivity|].
  cbn [Tooltip0 active negb andb].
  destruct (Mode_eqb m FullConservation); cbn [andb].
  - destruct (_ <? _); cbn [active negb swirlTip snd]; [reflexivity|].
    apply scanSegs_find.
  - cbn [active negb]. apply scanSegs_find.
Qed.

Lemma frame_tip (s : State) (dtReal : F) (evs : list Event) (mouse : Vector2f A) :
  let '(s', o) := frame s dtReal evs mouse in
  o.(tip) = resolveTooltip s'.(mode) mouse s'.(current) o.(segs).
Proof.
  unfold frame. destruct (frameDt s dtReal) as [dt so]. reflexivity.
Qed.

(** C3: the resolver yields one tooltip, chosen by the first rule that
    matches in the order neutron, proton, electron, antineutrino, swirl,
    arrows.  For every mode, pointer, event and list of registered segments
    the resolver of the loop equals first-match over the rule list; rule by
    rule, a hit wins exactly when every earlier rule misses, and when rules
    1 to 5 all miss the first registered segment within the hit band gives
    the tooltip (none if there is no such segment).  So a pointer within the
    neutron's hit radius (24) and within the hit band (distance < 8) of a
    registered arrow segment gets the neutron tooltip and not an arrow
    tooltip, in the resolver and in every frame. *)
Theorem hit_test_priority :
  (forall (m : Mode) (mouse : Vector2f A) (ev : DecayEvent A) (sgs : list Seg),
      resolveTooltip m mouse ev sgs = resolveByPriority m mouse ev sgs) /\
  (forall (m : Mode) (mouse : Vector2f A) (ev : DecayEvent A) (sgs : list Seg),
      let n := hitCircle mouse origin (of_int 24) in
      let p := hitCircle mouse protonPos (of_int 20) in
      let e := hitCircle mouse ev.(electron).(pos) (of_int 18) in
      let a := hitCircle mouse ev.(antinu).(pos) (of_int 16) in
      let w := Mode_eqb m FullConservation && hitSwirl mouse ev.(L_needed) in
      (n = true -> resolveTooltip m mouse ev sgs = neutronTip) /\
      (n = false -> p = true -> resolveTooltip m mouse ev sgs = protonTip) /\
      (n = false -> p = false -> e = true ->
       resolveTooltip m mouse ev sgs = electronTip) /\
      (n = false -> p = false -> e = false -> a = true ->
       resolveTooltip m mouse ev sgs = antinuTip) /\
      (n = false -> p = false -> e = false -> a = false -> w = true ->
       resolveTooltip m mouse ev sgs = swirlTip) /\
      (n = false -> p = false -> e = false -> a = false -> w = false ->
       resolveTooltip m mouse ev sgs
       = match find (hitSeg mouse) sgs with
         | Some s => segTip s
         | None => Tooltip0
         end)) /\
  (forall (m : Mode) (mouse : Vector2f A) (ev : DecayEvent A) (sgs : list Seg)
          (sg : Seg),
      hitCircle mouse origin (of_int 24) = true ->
      In sg sgs -> hitSeg mouse sg = true ->
      resolveTooltip m mouse ev sgs = neutronTip /\
      resolveTooltip m mouse ev sgs <> momentumTip /\
      resolveTooltip m mouse ev sgs <> spinTip /\
      (forall (s : State) (dtReal : F) (evs : list Event),
          (snd (frame s dtReal evs mouse)).(tip) = neutronTip)).
Proof.
  split; [exact resolveTooltip_by_priority|]. split.
  - intros m mouse ev sgs. cbv zeta. rewrite resolveTooltip_by_priority.
    unfold resolveByPriority, firstMatch, priorityRules. cbn [find fst snd].
    repeat split; intros;
      repeat match goal with H : _ = true |- _ => rewrite H; clear H end;
      repeat match goal with H : _ = false |- _ => rewrite H; clear H end;
      reflexivity.
  - intros m mouse ev sgs sg Hn _ _.
    assert (Hr : forall m' ev' sgs', resolveTooltip m' mouse ev' sgs' = neutronTip).
    { intros. unfold resolveTooltip, hoverDots. rewrite Hn. reflexivity. }
    rewrite Hr. repeat split; try discriminate.
    intros s dtReal evs. pose proof (frame_tip s dtReal evs mouse) as Hf.
    destruct (frame s dtReal evs mouse) as [s' o]. cbn [snd]. rewrite Hf. apply Hr.
Qed.

End ResolverFacts.

(** A pointer at the decay origin in mode 2: inside the neutron's radius and
    on the electron's momentum arrow, which starts there. *)
Lemma hit_test_priority_witness :
  let ev := fst (makeEvent (RS:=constRandom 1) tt (origin (A:=M32)) (q32 85 100)
                   SpinAndMotion) in
  let sgs := drawVectors SpinAndMotion ev.(electron) in
  hitCircle (origin (A:=M32)) origin (of_int 24) = true /\
  hitSeg origin (hd (mkSeg origin origin 0) sgs) = true /\
  resolveTooltip SpinAndMotion origin ev sgs = neutronTip.
Proof.
  cbv zeta.
  assert (H1 : hitCircle (origin (A:=M32)) origin (of_int 24) = true)
    by (vm_compute; reflexivity).
  assert (H2 : hitSeg (origin (A:=M32))
                 (hd (mkSeg origin origin 0)
                    (drawVectors SpinAndMotion
                       (electron (fst (makeEvent (RS:=constRandom 1) tt
                          (origin (A:=M32)) (q32 85 100) SpinAndMotion))))) = true)
    by (vm_compute; reflexivity).
  split; [exact H1 | split; [exact H2|]].
  refine (proj1 (proj2 (proj2 (hit_test_priority (RS:=constRandom 1)))
                   SpinAndMotion _ _ _ _ H1 _ H2)).
  left. reflexivity.
Defined.

(** ** The trail *)

Section TrailFacts.

Context {A : Arith} {RS : Random A}.
Local Open Scope float_scope.

Lemma stepParticle_idle (dt : F) (p : Particle A) :
  (dt <=? f0) = true -> stepParticle dt p = p.
Proof. intros H. unfold stepParticle. rewrite H. reflexivity. Qed.

Lemma stepParticle_trail (dt : F) (p : Particle A) :
  (dt <=? f0) = false ->
  (stepParticle dt p).(trail)
  = if p.(trailTimer) + dt >=? lit 2 100
    then pushCapped p.(trail) (advanced dt p) else p.(trail).
Proof.
  intros H. unfold stepParticle, pushCapped, advanced. rewrite H.
  destruct (p.(trailTimer) + dt >=? lit 2 100);
    repeat match goal with |- context [if ?c then _ else _] => destruct c end;
    reflexivity.
Qed.

Lemma stepParticle_trailTimer (dt : F) (p : Particle A) :
  (dt <=? f0) = false ->
  (stepParticle dt p).(trailTimer)
  = if p.(trailTimer) + dt >=? lit 2 100 then f0 else p.(trailTimer) + dt.
Proof.
  intros H. unfold stepParticle. rewrite H.
  destruct (p.(trailTimer) + dt >=? lit 2 100);
    repeat match goal with |- context [if ?c then _ else _] => destruct c end;
    reflexivity.
Qed.

Lemma pushCapped_cases {T : Type} (tr : list T) (v : T) :
  (List.length tr <= TRAIL_CAP)%nat ->
  ((List.length tr < TRAIL_CAP)%nat /\ pushCapped tr v = tr ++ [v]) \/
  (List.length tr = TRAIL_CAP /\ pushCapped tr v = tl tr ++ [v]).
Proof.
  intros Hle. unfold pushCapped. rewrite length_app. cbn [List.length].
  destruct (Nat.ltb_spec TRAIL_CAP (List.length tr + 1)) as [Hlt|Hge].
  - right. split; [lia|]. destruct tr as [|a tr]; [cbn in Hlt; unfold TRAIL_CAP in Hlt; lia|].
    reflexivity.
  - left. split; [lia | reflexivity].
Qed.

Lemma pushCapped_length {T : Type} (tr : list T) (v : T) :
  (List.length tr <= TRAIL_CAP)%nat ->
  (List.length (pushCapped tr v) <= TRAIL_CAP)%nat.
Proof.
  intros Hle. destruct (@pushCapped_cases _ tr v Hle) as [[Hlt ->]|[Heq ->]].
  - rewrite length_app. cbn. lia.
  - rewrite length_app. destruct tr; cbn in *; unfold TRAIL_CAP in *; lia.
Qed.

Lemma stepParticle_trail_bounded (dt : F) (p : Particle A) :
  (List.length p.(trail) <= TRAIL_CAP)%nat ->
  (List.length (stepParticle dt p).(trail) <= TRAIL_CAP)%nat.
Proof.
  intros Hle. destruct (dt <=? f0) eqn:Hdt.
  - rewrite stepParticle_idle by assumption. exact Hle.
  - rewrite stepParticle_trail by assumption.
    destruct (p.(trailTimer) + dt >=? lit 2 100); [apply pushCapped_length|]; exact Hle.
Qed.

Lemma makeEvent_trails (r : Rng) (o : Vector2f A) (bias : F) (m : Mode) :
  (fst (makeEvent r o bias m)).(electron).(trail) = [] /\
  (fst (makeEvent r o bias m)).(antinu).(trail) = [].
Proof.
  unfold makeEvent.
  destruct (angleDist r) as [a r1], (u01 r1) as [u r2], (pm01 r2) as [c r3].
  destruct m; split; reflexivity.
Qed.

Lemma respawn_bounded (s : State) : trails_bounded (respawn s).
Proof.
  unfold trails_bounded, respawn.
  pose proof (makeEvent_trails s.(rng) origin s.(leftHandBias) s.(mode)) as [He Hn].
  destruct (makeEvent _ _ _ _) as [ev r]. cbn in *. rewrite He, Hn.
  cbn. unfold TRAIL_CAP. lia.
Qed.

Lemma handleEvent_bounded (s : State) (e : Event) :
  trails_bounded s -> trails_bounded (handleEvent s e).
Proof.
  intros H. destruct e as [|k|]; cbn [handleEvent]; try exact H.
  destruct k; cbn [handleKey]; try apply respawn_bounded; try exact H.
  destruct (paused s); exact H.
Qed.

Lemma pollEvents_bounded (evs : list Event) (s : State) :
  trails_bounded s -> trails_bounded (pollEvents s evs).
Proof.
  unfold pollEvents. revert s.
  induction evs as [|e evs IH]; intros s H; cbn [fold_left]; [exact H|].
  apply IH, handleEvent_bounded, H.
Qed.

Lemma updateTiming_bounded (dt : F) (s : State) :
  trails_bounded s -> trails_bounded (updateTiming dt s).
Proof.
  intros H. unfold updateTiming. destruct (dt >? f0); [|exact H].
  cbn [timeAlive duration]. destruct (_ >=? _); [apply respawn_bounded | exact H].
Qed.

Lemma stepParticles_bounded (dt : F) (s : State) :
  trails_bounded s -> trails_bounded (stepParticles dt s).
Proof.
  intros [He Hn]. split; cbn; apply stepParticle_trail_bounded; assumption.
Qed.

Lemma frame_bounded (s : State) (dtReal : F) (evs : list Event) (mouse : Vector2f A) :
  trails_bounded s -> trails_bounded (fst (frame s dtReal evs mouse)).
Proof.
  intros H. unfold frame. destruct (frameDt s dtReal) as [dt so]. cbn [fst].
  apply stepParticles_bounded, updateTiming_bounded, pollEvents_bounded. exact H.
Qed.

Lemma run_bounded (inputs : list (F * list Event * Vector2f A)) (s : State) :
  trails_bounded s -> trails_bounded (fst (run s inputs)).
Proof.
  revert s. induction inputs as [|[[dtReal evs] mouse] rest IH]; intros s H;
    cbn [run]; [exact H|].
  destruct (windowOpen s); [|exact H].
  pose proof (frame_bounded dtReal evs mouse H) as Hf.
  destruct (frame s dtReal evs mouse) as [s1 o]. cbn [fst] in Hf.
  specialize (IH s1 Hf). destruct (run s1 rest) as [s2 os]. exact IH.
Qed.

Lemma initState_bounded (r : Rng) : trails_bounded (initState r).
Proof.
  unfold trails_bounded, initState.
  pose proof (makeEvent_trails r origin (lit 85 100) SpinOnly) as [He Hn].
  destruct (makeEvent _ _ _ _) as [ev r']. cbn in *. rewrite He, Hn.
  cbn. unfold TRAIL_CAP. lia.
Qed.

(** C6: the trail never holds more than 70 samples: in every state the
    loop reaches from its initial state both trails are within the cap, and
    one integration step keeps a trail within the cap.  A step that is
    skipped ([dt <= 0]) or whose timer has not reached 0.02 leaves the trail
    as it is.  A step that samples appends the advanced position at the end:
    to a trail of fewer than 70 it is simply appended; from a trail of 70
    the first (oldest) entry is dropped and the other 69 keep their order in
    front of the new one. *)
Theorem trail_capped_fifo :
  (forall (r : Rng) (inputs : list (F * list Event * Vector2f A)),
      trails_bounded (fst (run (initState r) inputs))) /\
  (forall (dt : F) (p : Particle A),
      (List.length p.(trail) <= 70)%nat ->
      (List.length (stepParticle dt p).(trail) <= 70)%nat /\
      ((dt <=? f0) = true -> (stepParticle dt p).(trail) = p.(trail)) /\
      ((dt <=? f0) = false -> (p.(trailTimer) + dt >=? lit 2 100) = false ->
       (stepParticle dt p).(trail) = p.(trail)) /\
      ((dt <=? f0) = false -> (p.(trailTimer) + dt >=? lit 2 100) = true ->
       ((List.length p.(trail) < 70)%nat ->
        (stepParticle dt p).(trail) = p.(trail) ++ [advanced dt p]) /\
       (List.length p.(trail) = 70%nat ->
        (stepParticle dt p).(trail) = tl p.(trail) ++ [advanced dt p] /\
        List.length (stepParticle dt p).(trail) = 70%nat))).
Proof.
  split.
  - intros r inputs. apply run_bounded, initState_bounded.
  - intros dt p Hle. split; [apply stepParticle_trail_bounded; exact Hle|].
    split; [intros Hdt; rewrite stepParticle_idle by assumption; reflexivity|].
    split.
    + intros Hdt Hg. rewrite stepParticle_trail by assumption.
      rewrite Hg. reflexivity.
    + intros Hdt Hg. rewrite stepParticle_trail by assumption. rewrite Hg.
      destruct (@pushCapped_cases _ (trail p) (advanced dt p) Hle)
        as [[Hlt ->] | [Heq ->]].
      * split; [reflexivity|]. unfold TRAIL_CAP in Hlt. lia.
      * split; [unfold TRAIL_CAP in Heq; lia|]. intros _.
        split; [reflexivity|]. rewrite length_app.
        destruct (trail p); cbn in *; unfold TRAIL_CAP in Heq; lia.
Qed.

(** C8, as amended: sampling is gated by a timer of accumulated simulated
    time.  A step with [dt > 0] appends one sample (the advanced position,
    evicting the oldest entry beyond the cap) and resets the timer to zero
    when the timer plus [dt] reaches 0.02; otherwise it appends nothing and
    keeps the accumulated time.  No step appends more than one sample. *)
Theorem trail_sampling_gate (dt : F) (p : Particle A) :
  (dt <=? f0) = false ->
  ((p.(trailTimer) + dt >=? lit 2 100) = true ->
   (stepParticle dt p).(trail) = pushCapped p.(trail) (advanced dt p) /\
   (stepParticle dt p).(trailTimer) = f0) /\
  ((p.(trailTimer) + dt >=? lit 2 100) = false ->
   (stepParticle dt p).(trail) = p.(trail) /\
   (stepParticle dt p).(trailTimer) = p.(trailTimer) + dt) /\
  (List.length (stepParticle dt p).(trail) <= List.length p.(trail) + 1)%nat.
Proof.
  intros Hdt.
  rewrite stepParticle_trail, stepParticle_trailTimer by assumption.
  destruct (p.(trailTimer) + dt >=? lit 2 100).
  - repeat split; try discriminate.
    unfold pushCapped. destruct (_ <? _)%nat.
    + destruct (trail p); cbn; [lia|]. rewrite length_app. cbn. lia.
    + rewrite length_app. cbn. lia.
  - repeat split; try discriminate. lia.
Qed.

End TrailFacts.

(** A full trail takes one more sample at dt = 0.02: sample 1 leaves,
    samples 2 to 70 stay in order, the new position comes last. *)
Lemma trail_capped_fifo_witness :
  (List.length fullTrail.(trail) <= 70)%nat /\
  fleb (q32 2 100) (f0 (A:=M32)) = false /\
  fleb (lit 2 100) (fadd fullTrail.(trailTimer) (q32 2 100)) = true /\
  List.length fullTrail.(trail) = 70%nat /\
  (stepParticle (q32 2 100) fullTrail).(trail)
  = tl fullTrail.(trail) ++ [advanced (q32 2 100) fullTrail] /\
  (stepParticle (q32 2 100) fullTrail).(trail)
  = map (fun i => V2 (A:=M32) (z32 (Z.of_nat i)) (z32 0)) (seq 2 69)
    ++ [V2 (A:=M32) (z32 500) (z32 100)].
Proof.
  assert (H : (List.length fullTrail.(trail) <= 70)%nat) by (vm_compute; lia).
  assert (Hdt : fleb (q32 2 100) (f0 (A:=M32)) = false) by (vm_compute; reflexivity).
  assert (Hg : fleb (lit 2 100) (fadd fullTrail.(trailTimer) (q32 2 100)) = true)
    by (vm_compute; reflexivity).
  assert (Hn : List.length fullTrail.(trail) = 70%nat) by (vm_compute; reflexivity).
  split; [exact H | split; [exact Hdt | split; [exact Hg | split; [exact Hn|]]]].
  split; [|reflexivity].
  exact (proj1 (proj2 (proj2 (proj2 (proj2
           (proj2 (trail_capped_fifo (A:=M32) (RS:=constRandom 1))
              (q32 2 100) fullTrail H))) Hdt Hg) Hn)).
Defined.

Lemma trail_sampling_gate_witness :
  (fleb (q32 2 100) f0) = false /\
  (List.length (stepParticle (q32 2 100) (restingAt 500 100)).(trail) <= 1)%nat.
Proof.
  assert (H : (fleb (q32 2 100) f0) = false) by (vm_compute; reflexivity).
  split; [exact H|].
  exact (proj2 (proj2 (@trail_sampling_gate M32 (q32 2 100) (restingAt 500 100) H))).
Defined.

(** C8 as stated fails: from an empty trail and a timer at zero, two steps
    of 0.02 s append two samples, one step of 0.02 + 0.02 s appends one. *)
Lemma trail_density_depends_on_steps : ~ trail_density_independent M32.
Proof.
  intros H.
  specialize (H (restingAt 500 100) (q32 2 100) (q32 2 100)).
  assert (H1 : fltb (f0 (A:=M32)) (q32 2 100) = true) by (vm_compute; reflexivity).
  assert (H2 : (List.length (restingAt 500 100).(trail) + 2 <= TRAIL_CAP)%nat)
    by (vm_compute; lia).
  specialize (H H1 H1 H2). vm_compute in H. discriminate H.
Qed.

(** ** The control loop *)

Section LoopFacts.
Context {A : Arith} {RS : Random A}.
Local Open Scope float_scope.

Lemma respawn_flags (s : State) :
  paused (respawn s) = paused s /\ stepOnce (respawn s) = stepOnce s /\
  mode (respawn s) = mode s /\ t (respawn s) = t s /\
  leftHandBias (respawn s) = leftHandBias s.
Proof.
  unfold respawn. destruct (makeEvent _ _ _ _) as [ev r]. repeat split.
Qed.

Lemma updateTiming_flags (dt : F) (s : State) :
  paused (updateTiming dt s) = paused s /\ stepOnce (updateTiming dt s) = stepOnce s /\
  mode (updateTiming dt s) = mode s /\ t (updateTiming dt s) = t s.
Proof.
  unfold updateTiming. destruct (dt >? f0); [|repeat split].
  cbn [timeAlive duration].
  match goal with |- context [if ?c then _ else _] => destruct c end;
    [|repeat split].
  destruct (respawn_flags (setCurrent
     (mkEvent (electron (current s)) (antinu (current s)) (protonSpinSign (current s))
        (neutronSpinSign (current s)) (L_needed (current s))
        (timeAlive (current s) + dt) (duration (current s))) s)) as (H1 & H2 & H3 & H4 & _).
  rewrite H1, H2, H3, H4. repeat split.
Qed.

Lemma event_eta (ev : DecayEvent A) :
  mkEvent ev.(electron) ev.(antinu) ev.(protonSpinSign) ev.(neutronSpinSign)
          ev.(L_needed) ev.(timeAlive) ev.(duration) = ev.
Proof. destruct ev; reflexivity. Qed.

Lemma frame_unfold (s : State) (dtReal : F) (evs : list Event) (mouse : Vector2f A) :
  fst (frame s dtReal evs mouse)
  = let dt := fst (frameDt s dtReal) in
    stepParticles dt (updateTiming dt
      (pollEvents (setT (t s + dt) (setStepOnce (snd (frameDt s dtReal)) s)) evs)).
Proof. unfold frame. destruct (frameDt s dtReal) as [dt so]. reflexivity. Qed.

Lemma frame_out_dt (s : State) (dtReal : F) (evs : list Event) (mouse : Vector2f A) :
  out_dt (snd (frame s dtReal evs mouse)) = fst (frameDt s dtReal).
Proof. unfold frame. destruct (frameDt s dtReal) as [dt so]. reflexivity. Qed.

Lemma state_eta (s : State) :
  mkState (windowOpen s) (mode s) (paused s) (stepOnce s) (showHelp s)
          (leftHandBias s) (current s) (t s) (rng s) = s.
Proof. destruct s; reflexivity. Qed.

End LoopFacts.

Section Binary32Loop.
Variables cosf sinf : spec_float -> spec_float.
Context {RS : Random (B32 cosf sinf)}.
Local Open Scope float_scope.

Lemma b32_zero_not_pos : @fltb (B32 cosf sinf) f0 f0 = false.
Proof. reflexivity. Qed.
Lemma b32_tick_pos : @fltb (B32 cosf sinf) f0 (f1 / of_int 60) = true.
Proof. reflexivity. Qed.

(* a frame with a zero step leaves the state to the key handlers *)
Lemma frame_zero_step (s : State) (d : F) (evs : list Event)
  (m : Vector2f (B32 cosf sinf)) :
  fst (frameDt s d) = f0 ->
  fst (frame s d evs m)
  = pollEvents (setT (t s + f0) (setStepOnce (snd (frameDt s d)) s)) evs.
Proof.
  intros Hd. rewrite frame_unfold. cbv zeta. rewrite Hd.
  set (s' := pollEvents _ evs).
  unfold updateTiming. rewrite b32_zero_not_pos.
  unfold stepParticles, setCurrent.
  rewrite !stepParticle_idle by reflexivity.
  rewrite event_eta. apply state_eta.
Qed.

Ltac state_fields :=
  cbn [windowOpen mode paused stepOnce showHelp leftHandBias current t rng
       setT setStepOnce setPaused setCurrent setMode setBias setShowHelp
       setWindowOpen electron antinu protonSpinSign neutronSpinSign L_needed
       timeAlive duration fst snd].

(** C7: the single-step key.  While paused, pressing N only raises the
    one-shot flag: the live event and the random engine are untouched.  The
    frame that receives the key does not advance; the next frame advances
    by 1/60 s, doing to the event what a running simulation does in a frame
    of 1/60 s, and ends paused with the flag cleared; unless the event
    reaches its duration on that tick no new event is generated; the frame
    after does not advance.  While not paused, pressing N changes nothing. *)
Theorem single_step_while_paused (s : State) :
  (paused s = true -> handleKey Key.N s = setStepOnce true s) /\
  (paused s = false -> handleKey Key.N s = s) /\
  (paused s = true -> stepOnce s = false ->
   forall (d1 d2 d3 : F) (m1 m2 m3 : Vector2f (B32 cosf sinf)),
     let r1 := frame s d1 [KeyPressed Key.N] m1 in
     let r2 := frame (fst r1) d2 [] m2 in
     let r3 := frame (fst r2) d3 [] m3 in
     let running := frame (setPaused false s) (f1 / of_int 60) [] m2 in
     (out_dt (snd r1) = f0 /\
      current (fst r1) = current s /\ rng (fst r1) = rng s) /\
     (out_dt (snd r2) = f1 / of_int 60 /\
      t (fst r2) = t (fst r1) + f1 / of_int 60 /\
      current (fst r2) = current (fst running) /\
      rng (fst r2) = rng (fst running) /\
      paused (fst r2) = true /\ stepOnce (fst r2) = false) /\
     ((timeAlive (current s) + f1 / of_int 60 >=? duration (current s)) = false ->
      rng (fst r2) = rng s /\
      electron (current (fst r2)) = stepParticle (f1 / of_int 60) (electron (current s)) /\
      antinu (current (fst r2)) = stepParticle (f1 / of_int 60) (antinu (current s)) /\
      timeAlive (current (fst r2)) = timeAlive (current s) + f1 / of_int 60 /\
      L_needed (current (fst r2)) = L_needed (current s) /\
      protonSpinSign (current (fst r2)) = protonSpinSign (current s)) /\
     (out_dt (snd r3) = f0 /\
      current (fst r3) = current (fst r2) /\ rng (fst r3) = rng (fst r2) /\
      paused (fst r3) = true)).
Proof.
  split; [|split].
  - intros Hp. cbn [handleKey]. rewrite Hp. reflexivity.
  - intros Hp. cbn [handleKey]. rewrite Hp. reflexivity.
  - intros Hp Hs d1 d2 d3 m1 m2 m3. cbv zeta.
    (* frame 1: paused, no step pending; the key sets the flag *)
    assert (Hd1 : frameDt s d1 = (f0, false)).
    { unfold frameDt. rewrite Hp, Hs. reflexivity. }
    assert (E1 : fst (frame s d1 [KeyPressed Key.N] m1)
                 = setStepOnce true (setT (t s + f0) (setStepOnce false s))).
    { rewrite frame_zero_step by (rewrite Hd1; reflexivity).
      rewrite Hd1. cbn [pollEvents fold_left handleEvent handleKey snd].
      state_fields. rewrite Hp. reflexivity. }
    set (s1 := fst (frame s d1 [KeyPressed Key.N] m1)) in *.
    (* frame 2: the pending step *)
    assert (Hd2 : frameDt s1 d2 = (f1 / of_int 60, false)).
    { unfold frameDt. rewrite E1. state_fields. rewrite Hp. reflexivity. }
    assert (Hdr : frameDt (setPaused false s) (f1 / of_int 60) = (f1 / of_int 60, false)).
    { unfold frameDt. state_fields. rewrite Hs. reflexivity. }
    assert (E2 : fst (frame s1 d2 [] m2)
                 = stepParticles (f1 / of_int 60) (updateTiming (f1 / of_int 60)
                     (setT (t s1 + f1 / of_int 60) (setStepOnce false s1)))).
    { rewrite frame_unfold, Hd2. reflexivity. }
    assert (Er : fst (frame (setPaused false s) (f1 / of_int 60) [] m2)
                 = stepParticles (f1 / of_int 60) (updateTiming (f1 / of_int 60)
                     (setT (t s + f1 / of_int 60)
                        (setStepOnce false (setPaused false s))))).
    { rewrite frame_unfold, Hdr. reflexivity. }
    set (s2 := fst (frame s1 d2 [] m2)) in *.
    set (sr := fst (frame (setPaused false s) (f1 / of_int 60) [] m2)) in *.
    assert (P2 : paused s2 = true /\ stepOnce s2 = false).
    { rewrite E2. unfold stepParticles. state_fields.
      destruct (updateTiming_flags (f1 / of_int 60)
                  (setT (t s1 + f1 / of_int 60) (setStepOnce false s1)))
        as (H1 & H2 & _).
      rewrite H1, H2, E1. state_fields. split; [exact Hp | reflexivity]. }
    split; [|split; [|split]].
    + rewrite frame_out_dt, Hd1, E1. repeat split.
    + rewrite frame_out_dt, Hd2. split; [reflexivity|].
      split.
      { rewrite E2. unfold stepParticles. state_fields.
        destruct (updateTiming_flags (f1 / of_int 60)
                    (setT (t s1 + f1 / of_int 60) (setStepOnce false s1)))
          as (_ & _ & _ & H4).
        rewrite H4. reflexivity. }
      split; [|split; [|exact P2]].
      * rewrite E2, Er, E1. unfold stepParticles, updateTiming.
        rewrite b32_tick_pos. state_fields.
        destruct (_ >=? _); [|reflexivity].
        unfold respawn. state_fields.
        destruct (makeEvent _ _ _ _) as [ev r]. reflexivity.
      * rewrite E2, Er, E1. unfold stepParticles, updateTiming.
        rewrite b32_tick_pos. state_fields.
        destruct (_ >=? _); [|reflexivity].
        unfold respawn. state_fields.
        destruct (makeEvent _ _ _ _) as [ev r]. reflexivity.
    + intros Hlive. rewrite E2, E1. unfold stepParticles, updateTiming.
      rewrite b32_tick_pos. state_fields. rewrite Hlive. state_fields.
      repeat split.
    + assert (Hd3 : frameDt s2 d3 = (f0, false)).
      { unfold frameDt. destruct P2 as [-> ->]. reflexivity. }
      rewrite frame_out_dt, Hd3.
      rewrite frame_zero_step by (rewrite Hd3; reflexivity).
      rewrite Hd3. cbn [pollEvents fold_left]. state_fields.
      repeat split. apply P2.
Qed.
End Binary32Loop.

(** A paused simulation, one press of N, three frames of 1/30 s wall time. *)
Lemma single_step_while_paused_witness :
  let s := setPaused true (initState (RS:=constRandom 1) tt) in
  let r1 := frame s (q32 1 30) [KeyPressed Key.N] origin in
  let r2 := frame (fst r1) (q32 1 30) [] origin in
  paused s = true /\ stepOnce s = false /\
  out_dt (snd r2) = q32 1 60 /\ paused (fst r2) = true /\ stepOnce (fst r2) = false.
Proof.
  cbv zeta.
  assert (Hp : paused (setPaused true (initState (RS:=constRandom 1) tt)) = true)
    by reflexivity.
  assert (Hs : stepOnce (setPaused true (initState (RS:=constRandom 1) tt)) = false)
    by reflexivity.
  split; [exact Hp | split; [exact Hs|]].
  pose proof (proj2 (proj2 (single_step_while_paused (RS:=constRandom 1)
                (setPaused true (initState (RS:=constRandom 1) tt)))) Hp Hs
                (q32 1 30) (q32 1 30) (q32 1 30) origin origin origin) as H.
  cbv zeta in H. destruct H as (_ & (H1 & _ & _ & _ & H2 & H3) & _).
  split; [exact H1 | split; [exact H2 | exact H3]].
Defined.

(** ** Facts of binary32 arithmetic *)

Lemma SFcompare_antisym (a b : spec_float) :
  SFcompare a b = option_map CompOpp (SFcompare b a).
Proof.
  destruct a as [sa|sa| |sa ma ea], b as [sb|sb| |sb mb eb]; cbn;
    try destruct sa; try destruct sb; try reflexivity;
    rewrite (Z.compare_antisym ea eb);
    destruct (Z.compare ea eb); cbn; try reflexivity;
    change (Pos.compare_cont Eq mb ma) with (Pos.compare mb ma);
    change (Pos.compare_cont Eq ma mb) with (Pos.compare ma mb);
    rewrite (Pos.compare_antisym ma mb); destruct (Pos.compare ma mb); reflexivity.
Qed.

Lemma SFcompare_defined (a b : spec_float) :
  is_nan a = false -> is_nan b = false -> exists c, SFcompare a b = Some c.
Proof.
  destruct a, b; cbn; intros Ha Hb; try discriminate; eexists; reflexivity.
Qed.

Lemma SFcompare_refl (a : spec_float) :
  is_nan a = false -> SFcompare a a = Some Eq.
Proof.
  destruct a as [s|s| |s m e]; cbn; intros Ha; try discriminate;
    destruct s; try reflexivity;
    rewrite Z.compare_refl;
    change (Pos.compare_cont Eq m m) with (Pos.compare m m);
    rewrite Pos.compare_refl; reflexivity.
Qed.

Lemma SFleb_defined (a b : spec_float) :
  SFleb a b = true -> is_nan a = false /\ is_nan b = false.
Proof.
  unfold SFleb. destruct a, b; cbn; intros H; try discriminate; split; reflexivity.
Qed.

Lemma SFleb_refl (a : spec_float) : is_nan a = false -> SFleb a a = true.
Proof. intros H. unfold SFleb. rewrite SFcompare_refl by assumption. reflexivity. Qed.

Lemma SFltb_SFleb_false (a b : spec_float) :
  SFltb a b = true -> SFleb b a = false.
Proof.
  unfold SFltb, SFleb. rewrite (SFcompare_antisym b a).
  destruct (SFcompare a b) as [[| |]|]; cbn; intros H; try discriminate; reflexivity.
Qed.

Lemma SFleb_SFltb_false (a b : spec_float) :
  SFleb a b = true -> SFltb b a = false.
Proof.
  unfold SFltb, SFleb. rewrite (SFcompare_antisym b a).
  destruct (SFcompare a b) as [[| |]|]; cbn; intros H; try discriminate; reflexivity.
Qed.

Lemma SFltb_false_SFleb (a b : spec_float) :
  is_nan a = false -> is_nan b = false -> SFltb a b = false -> SFleb b a = true.
Proof.
  intros Ha Hb. destruct (SFcompare_defined a b Ha Hb) as [c Hc].
  unfold SFltb, SFleb. rewrite (SFcompare_antisym b a), Hc.
  destruct c; cbn; intros H; try discriminate; reflexivity.
Qed.

(* a value that is already a binary32 number rounds to itself *)
Lemma binary_round_aux_exact (s : bool) (m : positive) (e : Z) :
  SpecFloat.bounded prec32 emax32 m e = true ->
  binary_round_aux prec32 emax32 s (Zpos m) e loc_Exact = S754_finite s m e.
Proof.
  unfold SpecFloat.bounded, canonical_mantissa. intros H.
  apply andb_true_iff in H. destruct H as [Hc He].
  apply Z.eqb_eq in Hc.
  unfold binary_round_aux, shr_fexp. cbn [Zdigits2 shr_record_of_loc].
  rewrite Hc, Z.sub_diag. cbn [shr shr_m loc_of_shr_record round_nearest_even].
  cbn [Zdigits2 shr_record_of_loc]. rewrite Hc, Z.sub_diag.
  cbn [shr shr_m]. rewrite He. reflexivity.
Qed.

Lemma SFmul_minus_one (v : spec_float) :
  valid_binary prec32 emax32 v = true ->
  SFmul prec32 emax32 v (SFopp (binary_normalize prec32 emax32 1 0 false)) = SFopp v.
Proof.
  change (SFopp (binary_normalize prec32 emax32 1 0 false))
    with (S754_finite true 8388608 (-23)).
  destruct v as [s|s| |s m e]; cbn [SFmul SFopp valid_binary]; intros Hv;
    try (destruct s; reflexivity); try reflexivity.
  rewrite Bool.xorb_true_r, Pos.mul_comm. cbn [Pos.mul].
  unfold SpecFloat.bounded, canonical_mantissa in Hv.
  apply andb_true_iff in Hv. destruct Hv as [Hc He].
  apply Z.eqb_eq in Hc. apply Z.leb_le in He.
  unfold binary_round_aux, shr_fexp. cbn [Zdigits2 digits2_pos shr_record_of_loc].
  rewrite !Pos2Z.inj_succ.
  match goal with |- context [fexp _ _ (?a + (e + -23))] =>
    replace (a + (e + -23))%Z with (Z.pos (digits2_pos m) + e)%Z by lia end.
  rewrite Hc. replace (e - (e + -23))%Z with 23%Z by lia.
  cbn [shr SpecFloat.iter_pos shr_1 orb shr_m loc_of_shr_record round_nearest_even].
  cbn [Zdigits2 shr_record_of_loc].
  replace (e + -23 + 23)%Z with e by lia.
  rewrite Hc, Z.sub_diag. cbn [shr shr_m].
  apply Z.leb_le in He. rewrite He. reflexivity.
Qed.

Lemma binary_round_aux_opp (s : bool) (m e : Z) (l : location) :
  binary_round_aux prec32 emax32 (negb s) m e l
  = SFopp (binary_round_aux prec32 emax32 s m e l).
Proof.
  unfold binary_round_aux.
  destruct (shr_fexp prec32 emax32 m e l) as [mrs' e'].
  destruct (shr_fexp prec32 emax32 _ e' loc_Exact) as [mrs'' e''].
  destruct (shr_m mrs''); [reflexivity | | reflexivity].
  destruct (Z.leb e'' _); reflexivity.
Qed.


Lemma SFmul_opp_opp (a : spec_float) :
  SFmul prec32 emax32 (SFopp a) (SFopp a) = SFmul prec32 emax32 a a.
Proof.
  destruct a as [sa|sa| |sa ma ea]; cbn [SFmul SFopp];
    try reflexivity; destruct sa; reflexivity.
Qed.

Lemma SFdiv_opp_l (a b : spec_float) :
  SFdiv prec32 emax32 (SFopp a) b = SFopp (SFdiv prec32 emax32 a b).
Proof.
  destruct a as [sa|sa| |sa ma ea], b as [sb|sb| |sb mb eb]; cbn [SFdiv SFopp];
    try reflexivity; try (destruct sa, sb; reflexivity).
  destruct (SFdiv_core_binary prec32 emax32 (Z.pos ma) ea (Z.pos mb) eb) as [[mz ez] lz].
  rewrite <- binary_round_aux_opp. destruct sa, sb; reflexivity.
Qed.


Lemma binary_round_aux_sign (s : bool) (m e : Z) (l : location) :
  s = false -> sign_clear (binary_round_aux prec32 emax32 s m e l) = true.
Proof.
  intros ->. unfold binary_round_aux.
  destruct (shr_fexp prec32 emax32 m e l) as [mrs' e'].
  destruct (shr_fexp prec32 emax32 _ e' loc_Exact) as [mrs'' e''].
  destruct (shr_m mrs''); [reflexivity | | reflexivity].
  destruct (Z.leb e'' _); reflexivity.
Qed.

Lemma SFmul_self_sign (a : spec_float) : sign_clear (SFmul prec32 emax32 a a) = true.
Proof.
  destruct a as [s|s| |s m e]; cbn [SFmul]; try (destruct s; reflexivity);
    try reflexivity.
  apply binary_round_aux_sign. destruct s; reflexivity.
Qed.



(** ** Reflection off the arena walls *)

Section Binary32Particle.
Variables cosf sinf : spec_float -> spec_float.
Local Open Scope float_scope.

Ltac b32_ops :=
  change (@fltb (B32 cosf sinf)) with SFltb in *;
  change (@fleb (B32 cosf sinf)) with SFleb in *;
  change (@fmul (B32 cosf sinf)) with (SFmul prec32 emax32) in *;
  change (@fneg (B32 cosf sinf)) with SFopp in *;
  change (@f1 (B32 cosf sinf)) with (binary_normalize prec32 emax32 1 0 false) in *.

Lemma b32_dt_pos (dt : @F (B32 cosf sinf)) :
  (f0 <? dt) = true -> (dt <=? f0) = false.
Proof. apply SFltb_SFleb_false. Qed.

(* one axis of [stepParticle]: the two tests in the order of the source *)
Lemma axis_reflect (lo hi c v : @F (B32 cosf sinf)) :
  (lo <=? hi) = true -> is_nan c = false ->
  let '(c1, v1) := if c <? lo then (lo, v * - f1) else (c, v) in
  let '(c2, v2) := if c1 >? hi then (hi, v1 * - f1) else (c1, v1) in
  (lo <=? c2) = true /\ (c2 <=? hi) = true /\
  c2 = fst (reflectAxis lo hi c v) /\
  (valid_binary prec32 emax32 v = true -> v2 = snd (reflectAxis lo hi c v)).
Proof.
  intros Hfit Hc. unfold reflectAxis. b32_ops.
  destruct (SFleb_defined _ _ Hfit) as [Hlo Hhi].
  destruct (SFltb c lo) eqn:H1.
  - rewrite (SFleb_SFltb_false _ _ Hfit).
    repeat split; try assumption.
    + apply SFleb_refl; assumption.
    + intros Hv. apply SFmul_minus_one; assumption.
  - destruct (SFltb hi c) eqn:H2.
    + repeat split; try assumption.
      * apply SFleb_refl; assumption.
      * intros Hv. apply SFmul_minus_one; assumption.
    + repeat split.
      * apply SFltb_false_SFleb; assumption.
      * apply SFltb_false_SFleb; assumption.
Qed.

(** C5: after an integration step with [dt > 0] the position lies within
    [left+radius, right-radius] x [top+radius, bottom-radius], whatever the
    starting position and velocity, provided the advanced position is a
    number (not NaN) and the particle's disc fits between opposite walls (as
    it does for the radii 8 and 6 of generated particles).  Each axis on its
    own: a coordinate beyond a bound is set to that bound and the velocity
    component of that axis is negated, otherwise both are kept. *)
Theorem stepParticle_in_arena (dt : F) (p : Particle (B32 cosf sinf)) :
  (f0 <? dt) = true ->
  fits p = true ->
  is_nan (advanced dt p).(x) = false ->
  is_nan (advanced dt p).(y) = false ->
  let p' := stepParticle dt p in
  inside p' = true /\
  p'.(pos).(x) = fst (reflectAxis (arena_left + p.(radius)) (arena_right - p.(radius))
                        (advanced dt p).(x) p.(vel).(x)) /\
  p'.(pos).(y) = fst (reflectAxis (arena_top + p.(radius)) (arena_bottom - p.(radius))
                        (advanced dt p).(y) p.(vel).(y)) /\
  (valid_binary prec32 emax32 p.(vel).(x) = true ->
   p'.(vel).(x) = snd (reflectAxis (arena_left + p.(radius)) (arena_right - p.(radius))
                         (advanced dt p).(x) p.(vel).(x))) /\
  (valid_binary prec32 emax32 p.(vel).(y) = true ->
   p'.(vel).(y) = snd (reflectAxis (arena_top + p.(radius)) (arena_bottom - p.(radius))
                         (advanced dt p).(y) p.(vel).(y))).
Proof.
  intros Hdt Hfit Hx Hy. cbv zeta.
  unfold fits in Hfit. apply andb_true_iff in Hfit. destruct Hfit as [Fx Fy].
  pose proof (axis_reflect _ _ _ p.(vel).(x) Fx Hx) as Ax.
  pose proof (axis_reflect _ _ _ p.(vel).(y) Fy Hy) as Ay.
  unfold stepParticle. rewrite (b32_dt_pos _ Hdt).
  fold (advanced dt p).
  unfold arena_left, arena_right, arena_top, arena_bottom in *.
  destruct (if trailTimer p + dt >=? lit 2 100 then _ else _) as [tm tr].
  destruct (if x (advanced dt p) <? _ then _ else _) as [c1 v1].
  destruct (if c1 >? _ then _ else _) as [c2 v2].
  destruct (if y (advanced dt p) <? _ then _ else _) as [d1 w1].
  destruct (if d1 >? _ then _ else _) as [d2 w2].
  destruct Ax as (X1 & X2 & X3 & X4), Ay as (Y1 & Y2 & Y3 & Y4).
  unfold inside. cbn [pos vel radius x y].
  unfold arena_left, arena_right, arena_top, arena_bottom.
  rewrite X1, X2, Y1, Y2. repeat split; assumption.
Qed.

End Binary32Particle.

(** A particle crossing the right wall within one tick of 1/60 s: it is put
    back at x = 1040 - 8 and now moves left. *)
Lemma stepParticle_in_arena_witness :
  (fltb (f0 (A:=M32)) (q32 1 60)) = true /\
  fits nearRightWall = true /\
  inside (stepParticle (q32 1 60) nearRightWall) = true /\
  (stepParticle (q32 1 60) nearRightWall).(pos).(x) = z32 1032 /\
  (stepParticle (q32 1 60) nearRightWall).(vel).(x) = z32 (-260).
Proof.
  assert (Hdt : (fltb (f0 (A:=M32)) (q32 1 60)) = true) by (vm_compute; reflexivity).
  assert (Hfit : fits nearRightWall = true) by (vm_compute; reflexivity).
  assert (Hx : is_nan (advanced (q32 1 60) nearRightWall).(x) = false)
    by (vm_compute; reflexivity).
  assert (Hy : is_nan (advanced (q32 1 60) nearRightWall).(y) = false)
    by (vm_compute; reflexivity).
  split; [exact Hdt | split; [exact Hfit | split]].
  - exact (proj1 (@stepParticle_in_arena cos_at0 sin_at0 (q32 1 60) nearRightWall
                    Hdt Hfit Hx Hy)).
  - split; reflexivity.
Defined.

(** ** Degenerate vectors, helicity, and the swirl ring *)

Section GenericVector.
Context {A : Arith}.
Local Open Scope float_scope.
Lemma vnorm_degenerate (v : Vector2f A) :
  (vlen v <=? lit 1 1000000) = true -> vnorm v = V2 f0 f0.
Proof. intros H. unfold vnorm. rewrite H. reflexivity. Qed.

Lemma helicitySign_cases (s m : Vector2f A) :
  ((vdot s m >=? f0) = true -> helicitySign s m = 1%Z) /\
  ((vdot s m >=? f0) = false -> helicitySign s m = (-1)%Z).
Proof. unfold helicitySign, signf. split; intros ->; reflexivity. Qed.
End GenericVector.

Section Binary32Vector.
Variables cosf sinf : spec_float -> spec_float.
Local Open Scope float_scope.

Lemma b32_zero_vector_len (sx sy : bool) :
  (vlen (V2 (A:=B32 cosf sinf) (S754_zero sx) (S754_zero sy)) <=? lit 1 1000000) = true.
Proof. destruct sx, sy; reflexivity. Qed.

Lemma b32_dot_zero_left (m : Vector2f (B32 cosf sinf)) :
  is_finite m.(x) = true -> is_finite m.(y) = true ->
  (vdot (V2 f0 f0) m >=? f0) = true.
Proof.
  destruct m as [mx my]. cbn [x y]. intros Hx Hy.
  destruct mx as [s1|s1| |s1 m1 e1]; try discriminate;
    destruct my as [s2|s2| |s2 m2 e2]; try discriminate;
    destruct s1, s2; reflexivity.
Qed.

Lemma b32_dot_zero_right (m : Vector2f (B32 cosf sinf)) :
  is_finite m.(x) = true -> is_finite m.(y) = true ->
  (vdot m (V2 f0 f0) >=? f0) = true.
Proof.
  destruct m as [mx my]. cbn [x y]. intros Hx Hy.
  destruct mx as [s1|s1| |s1 m1 e1]; try discriminate;
    destruct my as [s2|s2| |s2 m2 e2]; try discriminate;
    destruct s1, s2; reflexivity.
Qed.

(** C9: normalisation is total: a vector whose computed length is at most
    1e-6, the zero vector included, is mapped to the zero vector, with no
    division.  The helicity sign is defined on every pair of vectors: +1
    when their dot product is [>= 0], -1 otherwise (also on NaN); when one
    of them is such a degenerate vector and the other has finite
    components the dot product is zero and the sign is +1. *)
Theorem normalize_and_helicity_total :
  (forall v : Vector2f (B32 cosf sinf),
      (vlen v <=? lit 1 1000000) = true -> vnorm v = V2 f0 f0) /\
  (forall sx sy : bool,
      vnorm (V2 (A:=B32 cosf sinf) (S754_zero sx) (S754_zero sy)) = V2 f0 f0) /\
  (forall s m : Vector2f (B32 cosf sinf),
      ((vdot s m >=? f0) = true -> helicitySign s m = 1%Z) /\
      ((vdot s m >=? f0) = false -> helicitySign s m = (-1)%Z)) /\
  (forall v m : Vector2f (B32 cosf sinf),
      (vlen v <=? lit 1 1000000) = true ->
      is_finite m.(x) = true -> is_finite m.(y) = true ->
      helicitySign (vnorm v) m = 1%Z /\ helicitySign m (vnorm v) = 1%Z).
Proof.
  split; [exact vnorm_degenerate|].
  split; [intros sx sy; apply vnorm_degenerate, b32_zero_vector_len|].
  split; [exact helicitySign_cases|].
  intros v m Hv Hx Hy. rewrite (vnorm_degenerate v Hv).
  split; apply helicitySign_cases;
    [apply b32_dot_zero_left | apply b32_dot_zero_right]; assumption.
Qed.

Context {RS : Random (B32 cosf sinf)}.

Lemma b32_targetR_zero :
  @fadd (B32 cosf sinf) (of_int 22) (of_int (Z.abs 0) * of_int 10) = of_int 22.
Proof. reflexivity. Qed.

(** C10: in full-conservation mode the swirl rule does not ask for a
    nonzero orbital term: with [L_needed = 0] nothing is drawn for the swirl,
    yet a pointer that misses the four body circles and whose distance [d]
    from the neutron anchor has [|d - 22| < 14] gets the swirl tooltip. *)
Theorem swirl_tooltip_without_swirl (mouse : Vector2f (B32 cosf sinf))
  (ev : DecayEvent (B32 cosf sinf)) (sgs : list (@Seg (B32 cosf sinf)))
  (time : @F (B32 cosf sinf)) :
  L_needed ev = 0%Z ->
  hitCircle mouse origin (of_int 24) = false ->
  hitCircle mouse protonPos (of_int 20) = false ->
  hitCircle mouse ev.(electron).(pos) (of_int 18) = false ->
  hitCircle mouse ev.(antinu).(pos) (of_int 16) = false ->
  (fabs (vlen (vsub mouse origin) - of_int 22) <? of_int 14) = true ->
  drawOrbitalSwirl origin ev.(L_needed) time = None /\
  resolveTooltip FullConservation mouse ev sgs = swirlTip.
Proof.
  intros HL Hn Hp He Ha Hband. split.
  - rewrite HL. reflexivity.
  - rewrite resolveTooltip_by_priority.
    unfold resolveByPriority, priorityRules, firstMatch, hitSwirl.
    rewrite Hn, Hp, He, Ha, HL, b32_targetR_zero, Hband. reflexivity.
Qed.

End Binary32Vector.

(** A vector of length 1e-7 against the unit vector (1, 0). *)
Lemma normalize_and_helicity_total_witness :
  let v := V2 (A:=M32) (q32 1 10000000) (z32 0) in
  let m := V2 (A:=M32) (z32 1) (z32 0) in
  (fleb (vlen v) (lit 1 1000000)) = true /\
  helicitySign (vnorm v) m = 1%Z /\ helicitySign m (vnorm v) = 1%Z.
Proof.
  cbv zeta.
  assert (Hv : (fleb (vlen (V2 (A:=M32) (q32 1 10000000) (z32 0))) (lit 1 1000000)) = true)
    by (vm_compute; reflexivity).
  split; [exact Hv|].
  exact (proj2 (proj2 (proj2 (normalize_and_helicity_total cos_at0 sin_at0)))
           (V2 (A:=M32) (q32 1 10000000) (z32 0)) (V2 (A:=M32) (z32 1) (z32 0))
           Hv eq_refl eq_refl).
Defined.

(** A pointer 30 units below the neutron anchor, with both particles far
    away and no orbital term: 24 < 30 < 36. *)
Lemma swirl_tooltip_without_swirl_witness :
  let mouse := V2 (A:=M32) (z32 200) (z32 380) in
  (fltb (z32 24) (vlen (vsub mouse origin))) = true /\
  (fltb (vlen (vsub mouse origin)) (z32 36)) = true /\
  drawOrbitalSwirl origin (farEvent 0).(L_needed) (z32 0) = None /\
  resolveTooltip FullConservation mouse (farEvent 0) [] = swirlTip.
Proof.
  cbv zeta.
  split; [vm_compute; reflexivity|]. split; [vm_compute; reflexivity|].
  refine (@swirl_tooltip_without_swirl cos_at0 sin_at0
            (V2 (A:=M32) (z32 200) (z32 380)) (farEvent 0) [] (z32 0)
            eq_refl _ _ _ _ _); vm_compute; reflexivity.
Defined.

(** ** The generator on binary32 *)

Section Binary32Generator.
Variables cosf sinf : spec_float -> spec_float.
Context {RS : Random (B32 cosf sinf)}.
Local Open Scope float_scope.

Lemma b32_vlen_vneg (v : Vector2f (B32 cosf sinf)) : vlen (vneg v) = vlen v.
Proof.
  unfold vlen, vneg. cbn [x y].
  change (@fmul (B32 cosf sinf)) with (SFmul prec32 emax32).
  change (@fneg (B32 cosf sinf)) with SFopp.
  rewrite !SFmul_opp_opp. reflexivity.
Qed.

Lemma b32_vnorm_vneg (v : Vector2f (B32 cosf sinf)) :
  (vlen v <=? lit 1 1000000) = false -> vnorm (vneg v) = vneg (vnorm v).
Proof.
  intros H. unfold vnorm. rewrite b32_vlen_vneg, H.
  unfold vneg. cbn [x y].
  change (@fdiv (B32 cosf sinf)) with (SFdiv prec32 emax32).
  change (@fneg (B32 cosf sinf)) with SFopp.
  rewrite !SFdiv_opp_l. reflexivity.
Qed.



End Binary32Generator.

(** * Further properties *)

(** ** Invariants of the loop, in general *)

Section LoopInvariants.

Context {A : Arith} {RS : Random A}.
Local Open Scope float_scope.

Lemma frame_preserves (P : State -> Prop) :
  (forall s b, P s -> P (setStepOnce b s)) ->
  (forall s v, P s -> P (setT v s)) ->
  (forall s e, P s -> P (handleEvent s e)) ->
  (forall s dt, P s -> P (updateTiming dt s)) ->
  (forall s dt, P s -> P (stepParticles dt s)) ->
  forall s d evs m, P s -> P (fst (frame s d evs m)).
Proof.
  intros H1 H2 H3 H4 H5 s d evs m Hs. rewrite frame_unfold. cbv zeta.
  apply H5, H4. unfold pollEvents.
  assert (Hf : forall l s0, P s0 -> P (fold_left handleEvent l s0)).
  { induction l as [|e l IH]; intros s0 H0; cbn [fold_left]; [exact H0|].
    apply IH, H3, H0. }
  apply Hf, H2, H1, Hs.
Qed.

Lemma run_preserves (P : State -> Prop) :
  (forall s d evs m, P s -> P (fst (frame s d evs m))) ->
  forall inputs s, P s -> P (fst (run s inputs)).
Proof.
  intros Hf inputs. induction inputs as [|[[d evs] m] rest IH]; intros s Hs;
    cbn [run]; [exact Hs|].
  destruct (windowOpen s); [|exact Hs].
  pose proof (Hf s d evs m Hs) as H1.
  destruct (frame s d evs m) as [s1 o]. cbn [fst] in H1.
  specialize (IH s1 H1). destruct (run s1 rest) as [s2 os]. exact IH.
Qed.

(* an invariant of the live event alone that every generated event has and
   that ageing and integration keep is an invariant of the loop *)
Section EventInvariant.

Variable Q : DecayEvent A -> Prop.
Hypothesis Hgen : forall r o b m, Q (fst (makeEvent r o b m)).
Hypothesis Hage : forall ev v, Q ev ->
  Q (mkEvent ev.(electron) ev.(antinu) ev.(protonSpinSign)
       ev.(neutronSpinSign) ev.(L_needed) v ev.(duration)).
Hypothesis Hstep : forall ev dt, Q ev ->
  Q (mkEvent (stepParticle dt ev.(electron)) (stepParticle dt ev.(antinu))
       ev.(protonSpinSign) ev.(neutronSpinSign) ev.(L_needed)
       ev.(timeAlive) ev.(duration)).

Lemma event_invariant_respawn (s : State) : Q (current (respawn s)).
Proof.
  unfold respawn.
  pose proof (Hgen (rng s) origin (leftHandBias s) (mode s)) as H.
  destruct (makeEvent _ _ _ _) as [ev r']. exact H.
Qed.

Lemma event_invariant_frame (s : State) (d : F) (evs : list Event)
  (m : Vector2f A) :
  Q (current s) -> Q (current (fst (frame s d evs m))).
Proof.
  apply (frame_preserves (fun s => Q (current s))).
  - intros s0 b H; exact H.
  - intros s0 v H; exact H.
  - intros s0 e H. destruct e as [|k|]; cbn [handleEvent]; try exact H.
    destruct k; cbn [handleKey]; try apply event_invariant_respawn; try exact H.
    destruct (paused s0); exact H.
  - intros s0 dt H. unfold updateTiming. destruct (dt >? f0); [|exact H].
    cbn [timeAlive duration].
    match goal with |- context [if ?c then _ else _] => destruct c end;
      [apply event_invariant_respawn|]. cbn [current setCurrent]. apply Hage, H.
  - intros s0 dt H. cbn [stepParticles current setCurrent]. apply Hstep, H.
Qed.

Lemma event_invariant (r : Rng) (inputs : list (F * list Event * Vector2f A)) :
  Q (current (fst (run (initState r) inputs))).
Proof.
  apply (run_preserves (fun s => Q (current s))).
  - intros s d evs m. apply event_invariant_frame.
  - unfold initState.
    pose proof (Hgen r origin (lit 85 100) SpinOnly) as H.
    destruct (makeEvent _ _ _ _) as [ev r']. exact H.
Qed.

End EventInvariant.

End LoopInvariants.

(** ** The spin signs and the orbital term *)

Section SignFacts.

Context {A : Arith} {RS : Random A}.
Local Open Scope float_scope.

Lemma makeEvent_L_needed_shape (r : Rng) (o : Vector2f A) (bias : F) (m : Mode) :
  let ev := fst (makeEvent r o bias m) in
  (ev.(protonSpinSign) = 1 \/ ev.(protonSpinSign) = -1)%Z /\
  ev.(neutronSpinSign) = 1%Z /\
  ev.(L_needed)
  = (ev.(neutronSpinSign)
     - (ev.(protonSpinSign) + signf ev.(electron).(spinDir).(y)
        + signf ev.(antinu).(spinDir).(y)))%Z.
Proof.
  unfold makeEvent.
  destruct (angleDist r) as [a r1], (u01 r1) as [u r2], (pm01 r2) as [c r3].
  destruct m; cbn -[vnorm Z.sub Z.add]; unfold signf;
    (split; [destruct (c =? 0)%Z; auto | split; reflexivity]).
Qed.

Lemma makeEvent_signs (r : Rng) (o : Vector2f A) (bias : F) (m : Mode) :
  let ev := fst (makeEvent r o bias m) in
  (ev.(protonSpinSign) = 1 \/ ev.(protonSpinSign) = -1)%Z /\
  ev.(neutronSpinSign) = 1%Z /\ In ev.(L_needed) L_values.
Proof.
  cbv zeta.
  destruct (makeEvent_L_needed_shape r o bias m) as (Hp & Hn & HL).
  split; [exact Hp | split; [exact Hn|]].
  rewrite HL, Hn. unfold signf, L_values.
  destruct Hp as [-> | ->];
    destruct (_ >=? f0); destruct (_ >=? f0); cbn; auto.
Qed.

Lemma signs_frame (s : State) (d : F) (evs : list Event) (m : Vector2f A) :
  In (L_needed (current s)) L_values ->
  In (L_needed (current (fst (frame s d evs m)))) L_values.
Proof.
  apply (event_invariant_frame (fun ev => In ev.(L_needed) L_values)).
  - intros r o b m0. apply makeEvent_signs.
  - intros ev v H; exact H.
  - intros ev dt H; exact H.
Qed.

Lemma signs_run (r : Rng) (inputs : list (F * list Event * Vector2f A)) :
  In (L_needed (current (fst (run (initState r) inputs)))) L_values.
Proof.
  apply (event_invariant (fun ev => In ev.(L_needed) L_values)).
  - intros r0 o b m0. apply makeEvent_signs.
  - intros ev v H; exact H.
  - intros ev dt H; exact H.
Qed.

(** X1: the bookkeeping integers of the live event.  In every state the
    loop reaches, and so in every generated event, the proton sign is +1 or
    -1, the neutron sign is +1, and the orbital term is one of -2, 0, 2, 4:
    it is never odd and never below -2. *)
Theorem orbital_term_values :
  (forall (r : Rng) (o : Vector2f A) (bias : F) (m : Mode),
      let ev := fst (makeEvent r o bias m) in
      (ev.(protonSpinSign) = 1 \/ ev.(protonSpinSign) = -1)%Z /\
      ev.(neutronSpinSign) = 1%Z /\ In ev.(L_needed) L_values) /\
  (forall (r : Rng) (inputs : list (F * list Event * Vector2f A)),
      let ev := current (fst (run (initState r) inputs)) in
      (ev.(protonSpinSign) = 1 \/ ev.(protonSpinSign) = -1)%Z /\
      ev.(neutronSpinSign) = 1%Z /\ In ev.(L_needed) L_values).
Proof.
  split; [exact makeEvent_signs|].
  intros r inputs.
  apply (event_invariant
           (fun ev => (ev.(protonSpinSign) = 1 \/ ev.(protonSpinSign) = -1)%Z /\
                      ev.(neutronSpinSign) = 1%Z /\ In ev.(L_needed) L_values)).
  - exact makeEvent_signs.
  - intros ev v H; exact H.
  - intros ev dt H; exact H.
Qed.

End SignFacts.

(** ** What the tooltip can be *)

Section TooltipFacts.

Context {A : Arith} {RS : Random A}.
Local Open Scope float_scope.

Lemma frame_segs (s : State) (dtReal : F) (evs : list Event) (mouse : Vector2f A) :
  let '(s', o) := frame s dtReal evs mouse in
  o.(segs) = drawVectors s'.(mode) s'.(current).(electron)
             ++ drawVectors s'.(mode) s'.(current).(antinu).
Proof.
  unfold frame. destruct (frameDt s dtReal) as [dt so]. reflexivity.
Qed.

Lemma find_hitSeg_tip (mouse : Vector2f A) (sgs : list Seg) :
  match find (hitSeg mouse) sgs with
  | Some sg => In sg sgs
  | None => True
  end.
Proof.
  destruct (find (hitSeg mouse) sgs) as [sg|] eqn:E; [|exact I].
  apply find_some in E. apply E.
Qed.

Lemma resolveTooltip_cases (m : Mode) (mouse : Vector2f A) (ev : DecayEvent A)
  (sgs : list Seg) :
  let tp := resolveTooltip m mouse ev sgs in
  tp = neutronTip \/ tp = protonTip \/ tp = electronTip \/ tp = antinuTip \/
  (tp = swirlTip /\ m = FullConservation) \/
  (exists sg, In sg sgs /\ tp = segTip sg) \/ tp = Tooltip0.
Proof.
  cbv zeta. rewrite resolveTooltip_by_priority.
  unfold resolveByPriority, firstMatch, priorityRules. cbn [find fst snd].
  destruct (hitCircle mouse origin _); [auto|].
  destruct (hitCircle mouse protonPos _); [auto|].
  destruct (hitCircle mouse (pos (electron ev)) _); [auto|].
  destruct (hitCircle mouse (pos (antinu ev)) _); [auto 6|].
  destruct m; cbn [Mode_eqb andb].
  - pose proof (find_hitSeg_tip mouse sgs) as H.
    destruct (find (hitSeg mouse) sgs) as [sg|]; [|auto 10].
    right; right; right; right; right; left. exists sg. auto.
  - pose proof (find_hitSeg_tip mouse sgs) as H.
    destruct (find (hitSeg mouse) sgs) as [sg|]; [|auto 10].
    right; right; right; right; right; left. exists sg. auto.
  - destruct (hitSwirl mouse (L_needed ev)); [auto 10|].
    pose proof (find_hitSeg_tip mouse sgs) as H.
    destruct (find (hitSeg mouse) sgs) as [sg|]; [|auto 10].
    right; right; right; right; right; left. exists sg. auto.
Qed.

Lemma drawVectors_SpinOnly_kinds (p : Particle A) (sg : Seg) :
  In sg (drawVectors SpinOnly p) -> sg.(kind) = 1%Z.
Proof. cbn [drawVectors In]. intros [<- | []]. reflexivity. Qed.

(** X2: what a frame can show as tooltip.  The tooltip of a frame is
    inactive with no text, or active with the title and body of one and the
    same element (neutron, proton, electron, antineutrino, swirl, momentum
    arrow, spin arrow).  The swirl tooltip is shown only in full-conservation
    mode, and in SpinOnly mode, where only spin arrows are registered, the
    momentum tooltip is never shown. *)
Theorem tooltip_of_frame (s : State) (dtReal : F) (evs : list Event)
  (mouse : Vector2f A) :
  let s' := fst (frame s dtReal evs mouse) in
  let tp := (snd (frame s dtReal evs mouse)).(tip) in
  In tp [Tooltip0; neutronTip; protonTip; electronTip; antinuTip; swirlTip;
         momentumTip; spinTip] /\
  (tp.(active) = false <-> tp = Tooltip0) /\
  (tp = swirlTip -> s'.(mode) = FullConservation) /\
  (s'.(mode) = SpinOnly -> tp <> momentumTip).
Proof.
  cbv zeta.
  pose proof (frame_tip s dtReal evs mouse) as Ht.
  pose proof (frame_segs s dtReal evs mouse) as Hs.
  destruct (frame s dtReal evs mouse) as [s' o]. cbn [fst snd].
  rewrite Ht.
  pose proof (resolveTooltip_cases (mode s') mouse (current s') (segs o)) as Hc.
  cbv zeta in Hc.
  set (tp := resolveTooltip (mode s') mouse (current s') (segs o)) in *.
  assert (Hin : In tp [Tooltip0; neutronTip; protonTip; electronTip; antinuTip;
                       swirlTip; momentumTip; spinTip]).
  { destruct Hc as [-> | [-> | [-> | [-> | [[-> _] | [[sg [_ ->]] | ->]]]]]];
      cbn [In]; auto 10.
    unfold segTip. destruct (kind sg =? 0)%Z; auto 10. }
  split; [exact Hin|]. split; [|split].
  - split.
    + intros Ha. cbn [In] in Hin.
      destruct Hin as [<- | [<- | [<- | [<- | [<- | [<- | [<- | [<- | []]]]]]]]];
        try reflexivity; discriminate Ha.
    + intros ->. reflexivity.
  - intros E.
    destruct Hc as [H | [H | [H | [H | [[_ H] | [[sg [_ H]] | H]]]]]];
      try exact H; rewrite H in E; try discriminate E.
    unfold segTip in E. destruct (kind sg =? 0)%Z; discriminate E.
  - intros Hm E.
    destruct Hc as [H | [H | [H | [H | [[H _] | [[sg [Hi H]] | H]]]]]];
      rewrite H in E; try discriminate E.
    rewrite Hs, Hm in Hi. apply in_app_or in Hi.
    assert (Hk : kind sg = 1%Z)
      by (destruct Hi as [Hi | Hi]; eapply drawVectors_SpinOnly_kinds; exact Hi).
    unfold segTip in E. rewrite Hk in E. discriminate E.
Qed.

End TooltipFacts.

(** ** The swirl that is drawn *)

Section SwirlFacts.

Context {A : Arith} {RS : Random A}.
Local Open Scope float_scope.

Lemma frame_swirl (s : State) (dtReal : F) (evs : list Event) (mouse : Vector2f A) :
  let '(s', o) := frame s dtReal evs mouse in
  o.(swirl) = match s'.(mode) with
              | FullConservation =>
                  drawOrbitalSwirl origin s'.(current).(L_needed) s'.(t)
              | _ => None
              end.
Proof.
  unfold frame. destruct (frameDt s dtReal) as [dt so]. reflexivity.
Qed.

Lemma drawOrbitalSwirl_shape (center : Vector2f A) (L : Z) (time : F) :
  match drawOrbitalSwirl center L time with
  | None => L = 0%Z
  | Some vs =>
      L <> 0%Z /\ List.length vs = 141%nat /\
      forall v, In v vs ->
        v.(vcolor) = RGBA 230 120 120 ((40 + Z.abs L * 20) mod 256)
  end.
Proof.
  unfold drawOrbitalSwirl.
  destruct (Z.abs L =? 0)%Z eqn:E0.
  - apply Z.eqb_eq in E0. lia.
  - apply Z.eqb_neq in E0.
    assert (HL : L <> 0%Z) by lia.
    split; [exact HL|]. split; [rewrite length_map, length_seq; reflexivity|].
    intros v Hv. apply in_map_iff in Hv. destruct Hv as [i [<- _]].
    cbn [vcolor]. apply Z.eqb_neq in HL. rewrite HL. reflexivity.
Qed.

(** X3: when the swirl is drawn.  A frame draws the swirl exactly when it
    ends in full-conservation mode with a nonzero orbital term.  When drawn,
    it is a strip of 141 vertices of one colour, red (230, 120, 120) with
    opacity 40 + 20 |L_needed|; in the states the loop reaches |L_needed| is
    2 or 4, so the opacity is 80 or 120 and never wraps around 255.  The
    green colour the source keeps for a zero term is never used. *)
Theorem swirl_of_frame (r : Rng) (inputs : list (F * list Event * Vector2f A))
  (dtReal : F) (evs : list Event) (mouse : Vector2f A) :
  let s := fst (run (initState r) inputs) in
  let s' := fst (frame s dtReal evs mouse) in
  let L := s'.(current).(L_needed) in
  match (snd (frame s dtReal evs mouse)).(swirl) with
  | None => s'.(mode) <> FullConservation \/ L = 0%Z
  | Some vs =>
      s'.(mode) = FullConservation /\ L <> 0%Z /\
      List.length vs = 141%nat /\
      (forall v, In v vs ->
         v.(vcolor) = RGBA 230 120 120 (40 + Z.abs L * 20)) /\
      (Z.abs L = 2 \/ Z.abs L = 4)%Z
  end.
Proof.
  cbv zeta.
  pose proof (signs_frame _ dtReal evs mouse (signs_run r inputs)) as HL.
  pose proof (frame_swirl (fst (run (initState r) inputs)) dtReal evs mouse) as Hw.
  destruct (frame (fst (run (initState r) inputs)) dtReal evs mouse) as [s' o].
  cbn [fst snd] in *. rewrite Hw.
  destruct (mode s'); try (left; discriminate).
  pose proof (drawOrbitalSwirl_shape origin (L_needed (current s')) (t s')) as Hs.
  destruct (drawOrbitalSwirl origin (L_needed (current s')) (t s')) as [vs|];
    [|right; exact Hs].
  destruct Hs as (H0 & Hn & Hc).
  assert (Habs : (Z.abs (L_needed (current s')) = 2
                  \/ Z.abs (L_needed (current s')) = 4)%Z).
  { unfold L_values in HL. cbn [In] in HL.
    destruct HL as [E | [E | [E | [E | []]]]]; rewrite <- E in *; cbn; auto.
    contradiction H0; reflexivity. }
  split; [reflexivity|]. split; [exact H0|]. split; [exact Hn|].
  split; [|exact Habs].
  intros v Hv. rewrite (Hc v Hv). f_equal.
  destruct Habs as [-> | ->]; reflexivity.
Qed.

End SwirlFacts.

(** ** Closing the window *)

Section CloseFacts.

Context {A : Arith} {RS : Random A}.
Local Open Scope float_scope.

Lemma respawn_open (s : State) : windowOpen (respawn s) = windowOpen s.
Proof. unfold respawn. destruct (makeEvent _ _ _ _). reflexivity. Qed.

Lemma handleEvent_open (s : State) (e : Event) :
  windowOpen (handleEvent s e) = windowOpen s && negb (is_closed e).
Proof.
  destruct e as [|k|]; cbn [handleEvent is_closed negb].
  - rewrite andb_false_r. reflexivity.
  - rewrite andb_true_r. destruct k; cbn [handleKey];
      rewrite ?respawn_open; try reflexivity.
    destruct (paused s); reflexivity.
  - rewrite andb_true_r. reflexivity.
Qed.

Lemma pollEvents_open (evs : list Event) (s : State) :
  windowOpen (pollEvents s evs) = windowOpen s && negb (existsb is_closed evs).
Proof.
  unfold pollEvents. revert s.
  induction evs as [|e evs IH]; intros s; cbn [fold_left existsb].
  - rewrite andb_true_r. reflexivity.
  - rewrite IH, handleEvent_open, negb_orb, andb_assoc. reflexivity.
Qed.

Lemma updateTiming_open (dt : F) (s : State) :
  windowOpen (updateTiming dt s) = windowOpen s.
Proof.
  unfold updateTiming. destruct (dt >? f0); [|reflexivity].
  cbn [timeAlive duration].
  match goal with |- context [if ?c then _ else _] => destruct c end;
    rewrite ?respawn_open; reflexivity.
Qed.

Lemma frame_open (s : State) (d : F) (evs : list Event) (m : Vector2f A) :
  windowOpen (fst (frame s d evs m))
  = windowOpen s && negb (existsb is_closed evs).
Proof.
  rewrite frame_unfold. cbv zeta. unfold stepParticles.
  cbn [windowOpen setCurrent]. rewrite updateTiming_open, pollEvents_open.
  reflexivity.
Qed.

Lemma respawn_bias (s : State) : leftHandBias (respawn s) = leftHandBias s.
Proof. unfold respawn. destruct (makeEvent _ _ _ _). reflexivity. Qed.

Lemma updateTiming_bias (dt : F) (s : State) :
  leftHandBias (updateTiming dt s) = leftHandBias s.
Proof.
  unfold updateTiming. destruct (dt >? f0); [|reflexivity].
  cbn [timeAlive duration].
  match goal with |- context [if ?c then _ else _] => destruct c end;
    rewrite ?respawn_bias; reflexivity.
Qed.

(** X4: closing the window.  The iteration that receives a close request
    is carried out to its end, with its update and its output, and is the
    last one: whatever input follows is not read.  No event reopens the
    window, and on a closed window the loop does nothing. *)
Theorem close_request_ends_the_loop :
  (forall (s : State) (d : F) (evs : list Event) (m : Vector2f A)
          (rest : list (F * list Event * Vector2f A)),
      windowOpen s = true -> existsb is_closed evs = true ->
      run s ((d, evs, m) :: rest)
      = (fst (frame s d evs m), [snd (frame s d evs m)])) /\
  (forall (s : State) (d : F) (evs : list Event) (m : Vector2f A),
      windowOpen (fst (frame s d evs m))
      = windowOpen s && negb (existsb is_closed evs)) /\
  (forall (s : State) (inputs : list (F * list Event * Vector2f A)),
      windowOpen s = false -> run s inputs = (s, [])).
Proof.
  assert (Hclosed : forall (s : State) inputs,
             windowOpen s = false -> run s inputs = (s, [])).
  { intros s [|[[d evs] m] rest] H; cbn [run]; [reflexivity|].
    rewrite H. reflexivity. }
  split; [|split; [exact frame_open | exact Hclosed]].
  intros s d evs m rest Ho Hc. cbn [run]. rewrite Ho.
  pose proof (frame_open s d evs m) as Hf. rewrite Ho, Hc in Hf.
  destruct (frame s d evs m) as [s1 o]. cbn [fst snd andb negb] in *.
  rewrite (Hclosed s1 rest Hf). reflexivity.
Qed.

End CloseFacts.

(** A close request between two key presses, with more input queued. *)
Lemma close_request_ends_the_loop_witness :
  let s := initState (RS:=constRandom 1) tt in
  let evs := [KeyPressed Key.P; Closed; KeyPressed Key.Num3] in
  windowOpen s = true /\ existsb is_closed evs = true /\
  List.length (snd (run s [(q32 1 60, evs, origin); (q32 1 60, [], origin)])) = 1%nat.
Proof.
  cbv zeta.
  assert (H1 : windowOpen (initState (RS:=constRandom 1) tt) = true) by reflexivity.
  assert (H2 : existsb is_closed [KeyPressed Key.P; Closed; KeyPressed Key.Num3] = true)
    by reflexivity.
  split; [exact H1 | split; [exact H2|]].
  rewrite (proj1 (close_request_ends_the_loop (RS:=constRandom 1))
             (initState (RS:=constRandom 1) tt) (q32 1 60) _ origin
             [(q32 1 60, [], origin)] H1 H2).
  reflexivity.
Defined.

(** ** The bias, the event's lifetime and the particles' identity on binary32 *)

Lemma sf_eqb_eq (a b : spec_float) : sf_eqb a b = true -> a = b.
Proof.
  destruct a as [s1|s1| |s1 m1 e1], b as [s2|s2| |s2 m2 e2]; cbn [sf_eqb];
    intros H; try discriminate; try reflexivity.
  - apply Bool.eqb_prop in H. congruence.
  - apply Bool.eqb_prop in H. congruence.
  - apply andb_true_iff in H. destruct H as [H H3].
    apply andb_true_iff in H. destruct H as [H1 H2].
    apply Bool.eqb_prop in H1. apply Pos.eqb_eq in H2. apply Z.eqb_eq in H3.
    congruence.
Qed.

Lemma sf_mem_In (a : spec_float) (l : list spec_float) :
  sf_mem a l = true -> In a l.
Proof.
  unfold sf_mem. intros H. apply existsb_exists in H.
  destruct H as [b [Hb E]]. apply sf_eqb_eq in E. subst b. exact Hb.
Qed.

Lemma bias_values_spec (b : spec_float) :
  In b bias_values ->
  In (biasUp (A:=M32) b) bias_values /\ In (biasDown (A:=M32) b) bias_values /\
  SFleb (q32 1 100) b = true /\ SFleb b (q32 99 100) = true.
Proof.
  assert (Hc : bias_values_closed = true) by (vm_compute; reflexivity).
  unfold bias_values_closed in Hc. rewrite forallb_forall in Hc.
  intros Hb. specialize (Hc b Hb).
  apply andb_true_iff in Hc. destruct Hc as [Hc H4].
  apply andb_true_iff in Hc. destruct Hc as [Hc H3].
  apply andb_true_iff in Hc. destruct Hc as [H1 H2].
  repeat split; try assumption; apply sf_mem_In; assumption.
Qed.

Lemma bias_values_init : In (q32 85 100) bias_values.
Proof. apply sf_mem_In. vm_compute. reflexivity. Qed.

Section Binary32State.

Variables cosf sinf : spec_float -> spec_float.
Context {RS : Random (B32 cosf sinf)}.
Local Open Scope float_scope.

Lemma bias_frame (s : State) (d : F) (evs : list Event)
  (m : Vector2f (B32 cosf sinf)) :
  In (@leftHandBias (B32 cosf sinf) RS s : spec_float) bias_values ->
  In (@leftHandBias (B32 cosf sinf) RS (fst (frame s d evs m)) : spec_float) bias_values.
Proof.
  apply (frame_preserves (fun s => In (@leftHandBias (B32 cosf sinf) RS s : spec_float) bias_values)).
  - intros s0 b H; exact H.
  - intros s0 v H; exact H.
  - intros s0 e H. destruct e as [|k|]; cbn [handleEvent]; try exact H.
    destruct k; cbn [handleKey]; rewrite ?respawn_bias; try exact H.
    + exact (proj1 (bias_values_spec H)).
    + exact (proj1 (proj2 (bias_values_spec H))).
    + destruct (paused s0); exact H.
  - intros s0 dt H. rewrite updateTiming_bias. exact H.
  - intros s0 dt H. exact H.
Qed.

(** X5: the bias stays within its clamps.  On binary32, in every state the
    loop reaches, whatever keys were pressed, the left-hand bias is at least
    0.01 and at most 0.99 (the nearest binary32 values): rounding in the
    repeated steps of 0.02 never carries it past a clamp, and it is never
    NaN. *)
Theorem bias_within_clamps (r : Rng)
  (inputs : list (F * list Event * Vector2f (B32 cosf sinf))) :
  let b := leftHandBias (fst (run (initState r) inputs)) in
  (lit 1 100 <=? b) = true /\ (b <=? lit 99 100) = true.
Proof.
  cbv zeta.
  assert (H : In (@leftHandBias (B32 cosf sinf) RS (fst (run (initState r) inputs)) : spec_float)
                 bias_values).
  { apply (run_preserves (fun s => In (@leftHandBias (B32 cosf sinf) RS s : spec_float) bias_values)).
    - intros s d evs m. apply bias_frame.
    - unfold initState. destruct (makeEvent _ _ _ _) as [ev r'].
      exact bias_values_init. }
  destruct (bias_values_spec H) as (_ & _ & H1 & H2). split; assumption.
Qed.

End Binary32State.

Section ClockFacts.

Context {A : Arith} {RS : Random A}.
Local Open Scope float_scope.

Lemma makeEvent_clock (r : Rng) (o : Vector2f A) (bias : F) (m : Mode) :
  (fst (makeEvent r o bias m)).(timeAlive) = f0 /\
  (fst (makeEvent r o bias m)).(duration) = of_int 3.
Proof.
  unfold makeEvent.
  destruct (angleDist r) as [a r1], (u01 r1) as [u r2], (pm01 r2) as [c r3].
  split; reflexivity.
Qed.

End ClockFacts.

Section Binary32Clock.

Variables cosf sinf : spec_float -> spec_float.
Context {RS : Random (B32 cosf sinf)}.
Local Open Scope float_scope.

Lemma respawn_live (s : State) : live (A:=B32 cosf sinf) (respawn s).
Proof.
  unfold live, respawn.
  destruct (makeEvent_clock (rng s) origin (leftHandBias s) (mode s)) as [Ht Hd].
  destruct (makeEvent _ _ _ _) as [ev r]. cbn [current fst] in *.
  rewrite Ht, Hd. split; reflexivity.
Qed.

Lemma frame_live (s : State) (d : F) (evs : list Event)
  (m : Vector2f (B32 cosf sinf)) :
  live (A:=B32 cosf sinf) s -> live (fst (frame s d evs m)).
Proof.
  apply (frame_preserves (live (A:=B32 cosf sinf) (RS:=RS))).
  - intros s0 b H; exact H.
  - intros s0 v H; exact H.
  - intros s0 e H. destruct e as [|k|]; cbn [handleEvent]; try exact H.
    destruct k; cbn [handleKey]; try apply respawn_live; try exact H.
    destruct (paused s0); exact H.
  - intros s0 dt [Hd Ht]. unfold updateTiming. destruct (dt >? f0); [|split; assumption].
    cbn [timeAlive duration].
    destruct (timeAlive (current s0) + dt >=? duration (current s0)) eqn:E;
      [apply respawn_live|].
    split; cbn [current setCurrent duration timeAlive]; assumption.
  - intros s0 dt H. exact H.
Qed.

(** X6: the live event is never terminal.  On binary32, in every state the
    loop reaches, for any frame times (NaN and infinities included) and any
    keys, the event's duration is 3 and its age is below it: an event whose
    age reaches 3 s within an iteration is replaced within that iteration. *)
Theorem event_never_terminal (r : Rng)
  (inputs : list (F * list Event * Vector2f (B32 cosf sinf))) :
  let ev := current (fst (run (initState r) inputs)) in
  duration ev = of_int 3 /\ (timeAlive ev >=? duration ev) = false.
Proof.
  cbv zeta. apply (run_preserves (live (A:=B32 cosf sinf) (RS:=RS))).
  - intros s d evs m. apply frame_live.
  - unfold live, initState.
    destruct (makeEvent_clock r origin (lit 85 100) SpinOnly) as [Ht Hd].
    destruct (makeEvent _ _ _ _) as [ev r']. cbn [current fst] in *.
    rewrite Ht, Hd. split; reflexivity.
Qed.

End Binary32Clock.

(** ** Reflection keeps the speed *)

Lemma valid_binary_SFopp (v : spec_float) :
  valid_binary prec32 emax32 (SFopp v) = valid_binary prec32 emax32 v.
Proof. destruct v; reflexivity. Qed.

Lemma SFopp_involutive (v : spec_float) : SFopp (SFopp v) = v.
Proof. destruct v as [s|s| |s m e]; cbn; rewrite ?negb_involutive; reflexivity. Qed.

Section Binary32Speed.

Variables cosf sinf : spec_float -> spec_float.
Local Open Scope float_scope.

(* one axis: the velocity component is kept or negated *)
Lemma axis_velocity (lo hi c v : @F (B32 cosf sinf)) :
  valid_binary prec32 emax32 v = true ->
  let '(c1, v1) := if c <? lo then (lo, v * - f1) else (c, v) in
  let '(c2, v2) := if c1 >? hi then (hi, v1 * - f1) else (c1, v1) in
  v2 = v \/ v2 = SFopp v.
Proof.
  intros Hv.
  change (@fmul (B32 cosf sinf)) with (SFmul prec32 emax32).
  change (@fneg (B32 cosf sinf)) with SFopp.
  change (@f1 (B32 cosf sinf)) with (binary_normalize prec32 emax32 1 0 false).
  destruct (c <? lo).
  - destruct (lo >? hi).
    + left. rewrite (SFmul_minus_one _ Hv), SFmul_minus_one
        by (rewrite valid_binary_SFopp; exact Hv).
      apply SFopp_involutive.
    + right. apply SFmul_minus_one, Hv.
  - destruct (c >? hi).
    + right. apply SFmul_minus_one, Hv.
    + left. reflexivity.
Qed.

Lemma b32_vlen_flip (a b a' b' : spec_float) :
  (a' = a \/ a' = SFopp a) -> (b' = b \/ b' = SFopp b) ->
  vlen (V2 (A:=B32 cosf sinf) a' b') = vlen (V2 (A:=B32 cosf sinf) a b).
Proof.
  intros Ha Hb. unfold vlen. cbn [x y].
  change (@fmul (B32 cosf sinf)) with (SFmul prec32 emax32).
  destruct Ha as [-> | ->], Hb as [-> | ->]; rewrite ?SFmul_opp_opp; reflexivity.
Qed.

(** X7: reflection is elastic.  On binary32 an integration step keeps each
    velocity component or negates it, so the speed (the length of the
    velocity, as computed) is the same bit for bit before and after the
    step, for every position, frame time and radius; the velocity
    components are assumed to be binary32 numbers. *)
Theorem stepParticle_keeps_speed (dt : F) (p : Particle (B32 cosf sinf)) :
  valid_binary prec32 emax32 p.(vel).(x) = true ->
  valid_binary prec32 emax32 p.(vel).(y) = true ->
  let p' := stepParticle dt p in
  (p'.(vel).(x) = p.(vel).(x) \/ p'.(vel).(x) = - p.(vel).(x)) /\
  (p'.(vel).(y) = p.(vel).(y) \/ p'.(vel).(y) = - p.(vel).(y)) /\
  vlen p'.(vel) = vlen p.(vel).
Proof.
  intros Hx Hy. cbv zeta.
  assert (H : (x (vel (stepParticle dt p)) = x (vel p)
               \/ x (vel (stepParticle dt p)) = SFopp (x (vel p))) /\
              (y (vel (stepParticle dt p)) = y (vel p)
               \/ y (vel (stepParticle dt p)) = SFopp (y (vel p)))).
  { unfold stepParticle. destruct (dt <=? f0); [split; left; reflexivity|].
    set (pos1 := vadd (pos p) (vscale (vel p) dt)).
    pose proof (axis_velocity (x arena_position + radius p)
                  (x arena_position + x arena_size - radius p) (x pos1) _ Hx) as Ax.
    pose proof (axis_velocity (y arena_position + radius p)
                  (y arena_position + y arena_size - radius p) (y pos1) _ Hy) as Ay.
    destruct (if trailTimer p + dt >=? lit 2 100 then _ else _) as [tm tr].
    destruct (if x pos1 <? _ then _ else _) as [c1 v1].
    destruct (if c1 >? _ then _ else _) as [c2 v2].
    destruct (if y pos1 <? _ then _ else _) as [d1 w1].
    destruct (if d1 >? _ then _ else _) as [d2 w2].
    cbn [vel x y]. split; assumption. }
  destruct H as [Hvx Hvy]. split; [exact Hvx | split; [exact Hvy|]].
  destruct (vel (stepParticle dt p)) as [a' b'], (vel p) as [a b]. cbn [x y] in *.
  apply b32_vlen_flip; assumption.
Qed.

End Binary32Speed.

(** The particle that bounces off the right wall keeps its speed of 260. *)
Lemma stepParticle_keeps_speed_witness :
  valid_binary prec32 emax32 nearRightWall.(vel).(x) = true /\
  valid_binary prec32 emax32 nearRightWall.(vel).(y) = true /\
  (stepParticle (q32 1 60) nearRightWall).(vel).(x) = z32 (-260) /\
  vlen (stepParticle (q32 1 60) nearRightWall).(vel) = z32 260.
Proof.
  assert (Hx : valid_binary prec32 emax32 nearRightWall.(vel).(x) = true) by reflexivity.
  assert (Hy : valid_binary prec32 emax32 nearRightWall.(vel).(y) = true) by reflexivity.
  split; [exact Hx | split; [exact Hy | split; [reflexivity|]]].
  exact (eq_trans (proj2 (proj2 (@stepParticle_keeps_speed cos_at0 sin_at0
                                    (q32 1 60) nearRightWall Hx Hy))) eq_refl).
Defined.

(** ** Rounding never produces NaN *)

Lemma iter_pos_preserves {T : Type} (P : T -> Prop) (f : T -> T) :
  (forall v, P v -> P (f v)) ->
  forall (n : positive) (v : T), P v -> P (SpecFloat.iter_pos f n v).
Proof.
  intros Hf. induction n as [n IH | n IH |]; intros v Hv; cbn [SpecFloat.iter_pos].
  - apply IH, IH, Hf, Hv.
  - apply IH, IH, Hv.
  - apply Hf, Hv.
Qed.

Lemma shr_1_nonneg (mrs : shr_record) :
  (0 <= shr_m mrs)%Z -> (0 <= shr_m (shr_1 mrs))%Z.
Proof.
  destruct mrs as [m r s]. cbn [shr_m]. intros H.
  destruct m as [|p|p]; [cbn; lia | | lia].
  destruct p; cbn; lia.
Qed.

Lemma shr_fexp_nonneg (m e : Z) (l : location) :
  (0 <= m)%Z -> (0 <= shr_m (fst (shr_fexp prec32 emax32 m e l)))%Z.
Proof.
  intros Hm. unfold shr_fexp, shr.
  assert (H0 : (0 <= shr_m (shr_record_of_loc m l))%Z)
    by (destruct l as [|[| |]]; exact Hm).
  destruct (fexp prec32 emax32 (Zdigits2 m + e) - e)%Z; cbn [fst]; try exact H0.
  apply (iter_pos_preserves (fun r => (0 <= shr_m r)%Z)); [exact shr_1_nonneg | exact H0].
Qed.

Lemma round_nearest_even_nonneg (m : Z) (l : location) :
  (0 <= m)%Z -> (0 <= round_nearest_even m l)%Z.
Proof.
  intros Hm. destruct l as [|[| |]]; cbn [round_nearest_even]; try lia.
  destruct (Z.even m); lia.
Qed.

Lemma binary_round_aux_not_nan (s : bool) (m e : Z) (l : location) :
  (0 <= m)%Z -> is_nan (binary_round_aux prec32 emax32 s m e l) = false.
Proof.
  intros Hm. unfold binary_round_aux.
  pose proof (shr_fexp_nonneg e l Hm) as H1.
  destruct (shr_fexp prec32 emax32 m e l) as [mrs' e']. cbn [fst] in H1.
  pose proof (shr_fexp_nonneg e' loc_Exact
                (round_nearest_even_nonneg (loc_of_shr_record mrs') H1)) as H2.
  destruct (shr_fexp prec32 emax32 _ e' loc_Exact) as [mrs'' e'']. cbn [fst] in H2.
  destruct (shr_m mrs'') as [|p|p]; [reflexivity | | lia].
  destruct (Z.leb e'' _); reflexivity.
Qed.

Lemma binary_normalize_not_nan (m e : Z) (sz : bool) :
  is_nan (binary_normalize prec32 emax32 m e sz) = false.
Proof.
  destruct m as [|p|p]; cbn [binary_normalize]; [reflexivity | |];
    unfold binary_round; destruct (shl_align _ _ _) as [mz ez];
    apply binary_round_aux_not_nan; lia.
Qed.

(* a product with a finite nonzero factor is NaN only if the other factor is *)
Lemma SFmul_finite_not_nan (a : spec_float) (s : bool) (m : positive) (e : Z) :
  is_nan a = false ->
  is_nan (SFmul prec32 emax32 a (S754_finite s m e)) = false.
Proof.
  destruct a as [sa|sa| |sa ma ea]; cbn [SFmul is_nan]; intros H;
    try reflexivity; try discriminate.
  apply binary_round_aux_not_nan. lia.
Qed.

(* a sum with a finite term is NaN only if the other term is *)
Lemma SFadd_finite_not_nan (a b : spec_float) :
  is_finite a = true -> is_nan b = false ->
  is_nan (SFadd prec32 emax32 a b) = false.
Proof.
  destruct a as [sa|sa| |sa ma ea]; cbn [is_finite]; intros Ha; try discriminate;
    destruct b as [sb|sb| |sb mb eb]; cbn [is_nan]; intros Hb; try discriminate;
    cbn [SFadd is_nan]; try reflexivity.
  - destruct sa, sb; reflexivity.
  - apply binary_normalize_not_nan.
Qed.

(* a value between two finite bounds is finite *)
Lemma SFleb_between_finite (lo hi v : spec_float) :
  is_finite lo = true -> is_finite hi = true ->
  SFleb lo v = true -> SFleb v hi = true -> is_finite v = true.
Proof.
  destruct lo as [s1|s1| |s1 m1 e1]; cbn [is_finite]; intros Hl; try discriminate;
    destruct hi as [s2|s2| |s2 m2 e2]; cbn [is_finite]; intros Hh; try discriminate;
    destruct v as [s|s| |s m e]; unfold SFleb; cbn [SFcompare is_finite];
    intros H1 H2; try reflexivity; try discriminate;
    destruct s; try discriminate.
Qed.

(** ** The operations of [vnorm] on finite inputs *)

Lemma SFmul_self_not_nan (a : spec_float) :
  is_finite a = true -> is_nan (SFmul prec32 emax32 a a) = false.
Proof.
  destruct a as [s|s| |s m e]; cbn [is_finite SFmul is_nan]; intros H;
    try discriminate; try reflexivity.
  apply binary_round_aux_not_nan. lia.
Qed.

(* the sum of two numbers with a clear sign bit is such a number *)
Lemma SFadd_sign_clear (a b : spec_float) :
  is_nan a = false -> sign_clear a = true ->
  is_nan b = false -> sign_clear b = true ->
  is_nan (SFadd prec32 emax32 a b) = false /\
  sign_clear (SFadd prec32 emax32 a b) = true.
Proof.
  destruct a as [sa|sa| |sa ma ea]; cbn [is_nan sign_clear]; intros Na Ca;
    try discriminate; apply negb_true_iff in Ca; subst sa;
    destruct b as [sb|sb| |sb mb eb]; cbn [is_nan sign_clear]; intros Nb Cb;
    try discriminate; apply negb_true_iff in Cb; subst sb;
    try (split; reflexivity).
  cbn [SFadd cond_Zopp Z.add binary_normalize]. split.
  - unfold binary_round. destruct (shl_align _ _ _) as [mz ez].
    apply binary_round_aux_not_nan. lia.
  - unfold binary_round. destruct (shl_align _ _ _) as [mz ez].
    apply binary_round_aux_sign. reflexivity.
Qed.

(* the square root of a number with a clear sign bit is such a number *)
Lemma SFsqrt_sign_clear (a : spec_float) :
  is_nan a = false -> sign_clear a = true ->
  is_nan (SFsqrt prec32 emax32 a) = false /\
  sign_clear (SFsqrt prec32 emax32 a) = true.
Proof.
  destruct a as [s|s| |s m e]; cbn [is_nan sign_clear]; intros Na Ca;
    try discriminate; apply negb_true_iff in Ca; subst s;
    try (split; reflexivity).
  cbn [SFsqrt]. unfold SFsqrt_core_binary.
  set (m' := match (e - 2 * _)%Z with Z0 => _ | Zpos _ => _ | Zneg _ => _ end).
  pose proof (Z.sqrtrem_sqrt m') as Hq. pose proof (Z.sqrt_nonneg m') as Hs.
  destruct (Z.sqrtrem m') as [q r]. cbn [fst] in Hq. subst q.
  split; [apply binary_round_aux_not_nan; exact Hs
         | apply binary_round_aux_sign; reflexivity].
Qed.

(* dividing a finite number by a length above the threshold of [vnorm] *)
Lemma SFdiv_finite_not_nan (a l : spec_float) :
  is_finite a = true -> is_nan l = false -> sign_clear l = true ->
  SFleb l (q32 1 1000000) = false ->
  is_nan (SFdiv prec32 emax32 a l) = false.
Proof.
  destruct a as [s|s| |s m e]; cbn [is_finite]; intros Fa; try discriminate;
    destruct l as [sl|sl| |sl ml el]; cbn [is_nan sign_clear]; intros Nl Cl;
    try discriminate; apply negb_true_iff in Cl; subst sl; intros Hl;
    try reflexivity; try discriminate Hl.
  cbn [SFdiv xorb]. unfold SFdiv_core_binary.
  set (m' := match (e - el - _)%Z with Z0 => _ | Zpos _ => _ | Zneg _ => _ end).
  assert (Hm : (0 <= m')%Z).
  { subst m'. destruct (e - el - _)%Z; [lia | | lia].
    rewrite Z.shiftl_mul_pow2 by lia. apply Z.mul_nonneg_nonneg; [lia|].
    apply Z.pow_nonneg. lia. }
  pose proof (Z.div_pos m' (Z.pos ml) Hm ltac:(lia)) as Hq.
  unfold Z.div in Hq. destruct (Z.div_eucl m' (Z.pos ml)) as [q r].
  apply binary_round_aux_not_nan. exact Hq.
Qed.

(** ** The particles stay inside the arena *)

Section Binary32Arena.

Variables cosf sinf : spec_float -> spec_float.
Context {RS : Random (B32 cosf sinf)}.
Local Open Scope float_scope.

Hypothesis Hdir : finite_direction (RS:=RS).

(* normalising a finite vector gives no NaN *)
Lemma b32_vnorm_not_nan (v : Vector2f (B32 cosf sinf)) :
  is_finite v.(x) = true -> is_finite v.(y) = true ->
  is_nan (vnorm v).(x) = false /\ is_nan (vnorm v).(y) = false.
Proof.
  intros Hx Hy. unfold vnorm.
  destruct (vlen v <=? lit 1 1000000) eqn:Hg; [split; reflexivity|].
  assert (Hl : is_nan (vlen v) = false /\ sign_clear (vlen v) = true).
  { unfold vlen.
    change (@fmul (B32 cosf sinf)) with (SFmul prec32 emax32).
    change (@fadd (B32 cosf sinf)) with (SFadd prec32 emax32).
    change (@fsqrt (B32 cosf sinf)) with (SFsqrt prec32 emax32).
    destruct (@SFadd_sign_clear _ _ (@SFmul_self_not_nan _ Hx) (SFmul_self_sign (x v))
                (@SFmul_self_not_nan _ Hy) (SFmul_self_sign (y v))) as [Hn Hc].
    apply SFsqrt_sign_clear; assumption. }
  destruct Hl as [Hn Hc]. cbn [x y].
  split; apply SFdiv_finite_not_nan; assumption.
Qed.

Lemma is_finite_SFopp (v : spec_float) : is_finite (SFopp v) = is_finite v.
Proof. destruct v; reflexivity. Qed.

Lemma is_finite_not_nan (v : spec_float) : is_finite v = true -> is_nan v = false.
Proof. destruct v; cbn; intros H; try reflexivity; discriminate. Qed.

Lemma makeEvent_well_placed (r : Rng) (bias : F) (m : Mode) :
  well_placed 8 (fst (makeEvent r origin bias m)).(electron) /\
  well_placed 6 (fst (makeEvent r origin bias m)).(antinu).
Proof.
  destruct (makeEvent_kinematics r origin bias m) as (Ve & Vn & _ & _).
  cbv zeta in Ve, Vn.
  destruct (Hdir r) as [Hx Hy].
  change (@fcos (B32 cosf sinf)) with cosf in *.
  change (@fsin (B32 cosf sinf)) with sinf in *.
  set (d := vnorm (V2 (A:=B32 cosf sinf) (cosf (fst (angleDist r)))
                       (sinf (fst (angleDist r))))) in *.
  assert (Hnu : is_nan (vnorm (vneg d)).(x) = false
                /\ is_nan (vnorm (vneg d)).(y) = false).
  { apply b32_vnorm_not_nan; unfold vneg; cbn [x y];
      change (@fneg (B32 cosf sinf)) with SFopp;
      rewrite is_finite_SFopp; assumption. }
  assert (Hrest :
    radius (electron (fst (makeEvent r origin bias m))) = of_int 8 /\
    radius (antinu (fst (makeEvent r origin bias m))) = of_int 6 /\
    pos (electron (fst (makeEvent r origin bias m))) = origin /\
    pos (antinu (fst (makeEvent r origin bias m))) = origin).
  { unfold makeEvent.
    destruct (angleDist r) as [a r1], (u01 r1) as [u r2], (pm01 r2) as [c r3].
    destruct m; repeat split. }
  destruct Hrest as (Re & Rn & Pe & Pn).
  unfold well_placed, inside. rewrite Ve, Vn, Re, Rn, Pe, Pn.
  unfold vscale. cbn [x y].
  change (@fmul (B32 cosf sinf)) with (SFmul prec32 emax32).
  change (@of_int (B32 cosf sinf) 260) with (S754_finite false 8519680 (-15)).
  repeat split; try reflexivity; apply SFmul_finite_not_nan;
    try (apply is_finite_not_nan; assumption); apply Hnu.
Qed.

(* a step that is carried out has a positive finite duration *)
Lemma b32_positive_finite (dt : @F (B32 cosf sinf)) :
  is_finite dt = true -> (dt <=? f0) = false ->
  exists m e, dt = S754_finite false m e.
Proof.
  destruct dt as [s|s| |s m e]; cbn [is_finite]; intros Hf Hp; try discriminate.
  destruct s; [vm_compute in Hp; discriminate Hp | eauto].
Qed.

(* one axis: the advanced coordinate is a number *)
Lemma b32_advance_not_nan (c v dt : spec_float) (m : positive) (e : Z) :
  is_finite c = true -> is_nan v = false -> dt = S754_finite false m e ->
  is_nan (SFadd prec32 emax32 c (SFmul prec32 emax32 v dt)) = false.
Proof.
  intros Hc Hv ->. apply SFadd_finite_not_nan; [exact Hc|].
  apply SFmul_finite_not_nan, Hv.
Qed.

(* one axis: the velocity component stays a number *)
Lemma axis_velocity_not_nan (lo hi c v : @F (B32 cosf sinf)) :
  is_nan v = false ->
  let '(c1, v1) := if c <? lo then (lo, v * - f1) else (c, v) in
  let '(c2, v2) := if c1 >? hi then (hi, v1 * - f1) else (c1, v1) in
  is_nan v2 = false.
Proof.
  intros Hv.
  change (@fmul (B32 cosf sinf)) with (SFmul prec32 emax32).
  change (@fneg (B32 cosf sinf) f1) with (S754_finite true 8388608 (-23)).
  destruct (c <? lo).
  - destruct (lo >? hi); repeat apply SFmul_finite_not_nan; exact Hv.
  - destruct (c >? hi); [apply SFmul_finite_not_nan|]; exact Hv.
Qed.

Lemma stepParticle_well_placed (rad : Z) (dt : @F (B32 cosf sinf))
  (p : Particle (B32 cosf sinf)) :
  rad = 8%Z \/ rad = 6%Z -> is_finite dt = true ->
  well_placed rad p -> well_placed rad (stepParticle dt p).
Proof.
  intros Hrad Hdt (Hr & Nx & Ny & Hin).
  destruct (dt <=? f0) eqn:Hp.
  { rewrite stepParticle_idle by exact Hp. repeat split; assumption. }
  destruct (b32_positive_finite dt Hdt Hp) as (m & e & Edt).
  unfold inside in Hin. rewrite Hr in Hin.
  apply andb_true_iff in Hin. destruct Hin as [Hin Y2].
  apply andb_true_iff in Hin. destruct Hin as [Hin Y1].
  apply andb_true_iff in Hin. destruct Hin as [X1 X2].
  assert (Fx : is_finite (x (pos p)) = true).
  { apply SFleb_between_finite
      with (lo := arena_left (A:=B32 cosf sinf) + of_int rad)
           (hi := arena_right (A:=B32 cosf sinf) - of_int rad); try assumption;
      destruct Hrad as [-> | ->]; reflexivity. }
  assert (Fy : is_finite (y (pos p)) = true).
  { apply SFleb_between_finite
      with (lo := arena_top (A:=B32 cosf sinf) + of_int rad)
           (hi := arena_bottom (A:=B32 cosf sinf) - of_int rad); try assumption;
      destruct Hrad as [-> | ->]; reflexivity. }
  assert (Ax : is_nan (x (advanced dt p)) = false)
    by exact (b32_advance_not_nan _ _ Fx Nx Edt).
  assert (Ay : is_nan (y (advanced dt p)) = false)
    by exact (b32_advance_not_nan _ _ Fy Ny Edt).
  assert (Fitx : (arena_left + radius p <=? arena_right - radius p) = true)
    by (rewrite Hr; destruct Hrad as [-> | ->]; reflexivity).
  assert (Fity : (arena_top + radius p <=? arena_bottom - radius p) = true)
    by (rewrite Hr; destruct Hrad as [-> | ->]; reflexivity).
  pose proof (@axis_reflect cosf sinf _ _ _ (x (vel p)) Fitx Ax) as Bx.
  pose proof (@axis_reflect cosf sinf _ _ _ (y (vel p)) Fity Ay) as By.
  pose proof (axis_velocity_not_nan (arena_left + radius p)
                (arena_right - radius p) (x (advanced dt p)) _ Nx) as Vx.
  pose proof (axis_velocity_not_nan (arena_top + radius p)
                (arena_bottom - radius p) (y (advanced dt p)) _ Ny) as Vy.
  unfold stepParticle. rewrite Hp. fold (advanced dt p).
  unfold arena_left, arena_right, arena_top, arena_bottom in *.
  destruct (if trailTimer p + dt >=? lit 2 100 then _ else _) as [tm tr].
  destruct (if x (advanced dt p) <? _ then _ else _) as [c1 v1].
  destruct (if c1 >? _ then _ else _) as [c2 v2].
  destruct (if y (advanced dt p) <? _ then _ else _) as [d1 w1].
  destruct (if d1 >? _ then _ else _) as [d2 w2].
  destruct Bx as (A1 & A2 & _), By as (B1 & B2 & _).
  unfold well_placed, inside, arena_left, arena_right, arena_top, arena_bottom.
  cbn [pos vel radius x y].
  rewrite A1, A2, B1, B2. repeat split; assumption.
Qed.

Lemma respawn_in_arena (s : State) : in_arena (respawn s).
Proof.
  unfold in_arena, respawn.
  pose proof (makeEvent_well_placed (rng s) (leftHandBias s) (mode s)) as H.
  destruct (makeEvent _ _ _ _) as [ev r]. exact H.
Qed.

Lemma frame_in_arena (s : State) (d : @F (B32 cosf sinf)) (evs : list Event)
  (m : Vector2f (B32 cosf sinf)) :
  is_finite d = true -> in_arena s -> in_arena (fst (frame s d evs m)).
Proof.
  intros Hd Hs. rewrite frame_unfold. cbv zeta.
  assert (Hdt : is_finite (fst (frameDt s d)) = true).
  { unfold frameDt. destruct (paused s); [|exact Hd].
    destruct (stepOnce s); reflexivity. }
  set (dt := fst (frameDt s d)) in *.
  assert (Hpoll : in_arena (pollEvents (setT (t s + dt)
                                (setStepOnce (snd (frameDt s d)) s)) evs)).
  { unfold pollEvents.
    assert (Hf : forall l s0, in_arena s0 -> in_arena (fold_left handleEvent l s0)).
    { induction l as [|e l IH]; intros s0 H0; cbn [fold_left]; [exact H0|].
      apply IH. destruct e as [|k|]; cbn [handleEvent]; try exact H0.
      destruct k; cbn [handleKey]; try apply respawn_in_arena; try exact H0.
      destruct (paused s0); exact H0. }
    apply Hf. exact Hs. }
  set (s1 := pollEvents _ evs) in *.
  assert (Hup : in_arena (updateTiming dt s1)).
  { unfold updateTiming. destruct (dt >? f0); [|exact Hpoll].
    cbn [timeAlive duration].
    match goal with |- context [if ?c then _ else _] => destruct c end;
      [apply respawn_in_arena | exact Hpoll]. }
  destruct Hup as [He Hn].
  split; cbn [stepParticles current setCurrent electron antinu];
    apply stepParticle_well_placed; auto.
Qed.

Lemma run_in_arena (inputs : list (@F (B32 cosf sinf) * list Event * Vector2f (B32 cosf sinf)))
  (s : State) :
  finite_frames inputs -> in_arena s -> in_arena (fst (run s inputs)).
Proof.
  revert s. induction inputs as [|[[d evs] m] rest IH]; intros s Hall Hs;
    cbn [run]; [exact Hs|].
  destruct (windowOpen s); [|exact Hs].
  inversion Hall as [|i l Hd Hrest]; subst. cbn [fst] in Hd.
  pose proof (@frame_in_arena s d evs m Hd Hs) as H1.
  destruct (frame s d evs m) as [s1 o]. cbn [fst] in H1.
  specialize (IH s1 Hrest H1). destruct (run s1 rest) as [s2 os]. exact IH.
Qed.

Lemma initState_in_arena (r : Rng) : in_arena (initState r).
Proof.
  unfold in_arena, initState.
  pose proof (makeEvent_well_placed r (lit 85 100) SpinOnly) as H.
  destruct (makeEvent _ _ _ _) as [ev r1]. exact H.
Qed.

(** X8 (binary32).  Provided the math library gives a finite normalised
    direction for every angle the engine draws and every frame has a finite
    measured duration, after any number of frames from the initial state
    both particles lie inside the arena inset by their radius (8 for the
    electron, 6 for the antineutrino) and no velocity component is NaN,
    whatever keys are pressed and however long a frame takes. *)
Theorem particles_stay_in_arena (r : Rng)
  (inputs : list (@F (B32 cosf sinf) * list Event * Vector2f (B32 cosf sinf))) :
  finite_frames inputs ->
  let s := fst (run (initState r) inputs) in
  inside (electron (current s)) = true /\
  inside (antinu (current s)) = true /\
  radius (electron (current s)) = of_int 8 /\
  radius (antinu (current s)) = of_int 6 /\
  is_nan (x (vel (electron (current s)))) = false /\
  is_nan (y (vel (electron (current s)))) = false /\
  is_nan (x (vel (antinu (current s)))) = false /\
  is_nan (y (vel (antinu (current s)))) = false.
Proof.
  intros Hin s.
  destruct (run_in_arena (s:=initState r) Hin (initState_in_arena r))
    as [(Re & Ex & Ey & Ie) (Rn & Nx & Ny & In_)].
  repeat split; assumption.
Qed.

End Binary32Arena.

Lemma particles_stay_in_arena_witness :
  let RS := constRandom 1 in
  let inputs :=
    [(z32 2, [KeyPressed Key.Num3], V2 (A:=M32) (z32 0) (z32 0));
     (q32 1 60, [], V2 (A:=M32) (z32 0) (z32 0))] in
  let s := fst (run (initState (RS:=RS) tt) inputs) in
  finite_direction (RS:=RS) /\ finite_frames inputs /\
  inside (electron (current s)) = true /\
  inside (antinu (current s)) = true.
Proof.
  intros RS inputs s.
  assert (Hd : finite_direction (RS:=RS)) by (intros r; split; reflexivity).
  assert (Hf : finite_frames (cosf:=cos_at0) (sinf:=sin_at0) inputs)
    by (repeat constructor).
  split; [exact Hd | split; [exact Hf |]].
  pose proof (@particles_stay_in_arena cos_at0 sin_at0 RS Hd tt inputs Hf) as H.
  split; [exact (proj1 H) | exact (proj1 (proj2 H))].
Defined.

(** ** What the frame shows, in general *)

Section FrameOutputs.

Context {A : Arith} {RS : Random A}.
Local Open Scope float_scope.

(* a step that is carried out renormalises the spin direction *)
Lemma stepParticle_spinDir (dt : F) (p : Particle A) :
  spinDir (stepParticle dt p)
  = if dt <=? f0 then spinDir p else vnorm (spinDir p).
Proof.
  unfold stepParticle. destruct (dt <=? f0); [reflexivity|].
  repeat match goal with
         | |- context [let '(_, _) := ?c in _] => destruct c
         | |- context [if ?c then _ else _] => destruct c
         end; reflexivity.
Qed.

Lemma frame_verdict (s : State) (d : F) (evs : list Event) (m : Vector2f A) :
  let ev := current (fst (frame s d evs m)) in
  let o := snd (frame s d evs m) in
  spinDot o = vdot (vnorm ev.(electron).(spinDir)) (vnorm ev.(antinu).(spinDir)) /\
  claimLooksTrue o = (spinDot o <? - lit 2 10).
Proof.
  unfold frame. destruct (frameDt s d) as [dt so]. split; reflexivity.
Qed.

End FrameOutputs.


(** * Signs through the generator: C1, C4 and the handedness *)

(** ** Sign bits through the binary32 operations *)

Lemma binary_round_aux_has_sign (s : bool) (m e : Z) (l : location) :
  has_sign s (binary_round_aux prec32 emax32 s m e l) = true.
Proof.
  unfold binary_round_aux.
  destruct (shr_fexp prec32 emax32 m e l) as [mrs' e'].
  destruct (shr_fexp prec32 emax32 _ e' loc_Exact) as [mrs'' e''].
  destruct (shr_m mrs''); [reflexivity | | reflexivity].
  destruct (Z.leb e'' _); cbn [has_sign]; apply eqb_reflx.
Qed.

Lemma binary_round_has_sign (s : bool) (m : positive) (e : Z) :
  has_sign s (binary_round prec32 emax32 s m e) = true.
Proof.
  unfold binary_round. destruct (shl_align _ _ _) as [mz ez].
  apply binary_round_aux_has_sign.
Qed.

Lemma has_sign_some (v : spec_float) : exists s, has_sign s v = true.
Proof.
  destruct v as [s|s| |s m e]; [exists false | exists s | exists false | exists s];
    cbn [has_sign]; try reflexivity; apply eqb_reflx.
Qed.

Lemma has_sign_opp (s : bool) (v : spec_float) :
  has_sign s v = true -> has_sign (negb s) (SFopp v) = true.
Proof.
  destruct v as [s'|s'| |s' m e]; cbn [has_sign SFopp]; intros H;
    try reflexivity; destruct s, s'; try reflexivity; discriminate H.
Qed.

Lemma has_sign_mul (s t : bool) (a b : spec_float) :
  has_sign s a = true -> has_sign t b = true ->
  has_sign (xorb s t) (SFmul prec32 emax32 a b) = true.
Proof.
  destruct a as [sa|sa| |sa ma ea], b as [sb|sb| |sb mb eb];
    cbn [has_sign SFmul]; intros Ha Hb; try reflexivity;
    try (apply eqb_prop in Ha; subst sa);
    try (apply eqb_prop in Hb; subst sb);
    try apply eqb_reflx.
  apply binary_round_aux_has_sign.
Qed.

(* the quotient by a value whose sign bit is clear keeps the sign *)
Lemma has_sign_div (s : bool) (a l : spec_float) :
  has_sign s a = true -> sign_clear l = true ->
  has_sign s (SFdiv prec32 emax32 a l) = true.
Proof.
  destruct a as [sa|sa| |sa ma ea], l as [sl|sl| |sl ml el];
    cbn [has_sign sign_clear SFdiv]; intros Ha Hl; try reflexivity;
    try (apply negb_true_iff in Hl; subst sl);
    try (apply eqb_prop in Ha; subst sa);
    rewrite ?xorb_false_r; try apply eqb_reflx.
  destruct (SFdiv_core_binary _ _ _ _ _ _) as [[mz ez] lz].
  apply binary_round_aux_has_sign.
Qed.

Lemma has_sign_add (s : bool) (a b : spec_float) :
  has_sign s a = true -> has_sign s b = true ->
  has_sign s (SFadd prec32 emax32 a b) = true.
Proof.
  destruct a as [sa|sa| |sa ma ea], b as [sb|sb| |sb mb eb];
    cbn [has_sign SFadd]; intros Ha Hb; try reflexivity;
    try (apply eqb_prop in Ha; subst sa);
    try (apply eqb_prop in Hb; subst sb);
    try assumption; try apply eqb_reflx.
  - destruct sa, sb; reflexivity.
  - destruct s; reflexivity.
  - destruct s; cbn [cond_Zopp Z.opp Z.add binary_normalize];
      apply binary_round_has_sign.
Qed.

Lemma sign_clear_add (a b : spec_float) :
  sign_clear a = true -> sign_clear b = true ->
  sign_clear (SFadd prec32 emax32 a b) = true.
Proof.
  destruct a as [sa|sa| |sa ma ea], b as [sb|sb| |sb mb eb];
    cbn [sign_clear]; intros Ha Hb;
    try (apply negb_true_iff in Ha; subst sa);
    try (apply negb_true_iff in Hb; subst sb);
    try reflexivity.
  cbn [SFadd cond_Zopp Z.add binary_normalize].
  unfold binary_round. destruct (shl_align _ _ _) as [mz ez].
  apply binary_round_aux_sign. reflexivity.
Qed.

Lemma sign_clear_sqrt (a : spec_float) :
  sign_clear a = true -> sign_clear (SFsqrt prec32 emax32 a) = true.
Proof.
  destruct a as [s|s| |s m e]; cbn [sign_clear]; intros Ha;
    try (apply negb_true_iff in Ha; subst s); try reflexivity.
  cbn [SFsqrt]. destruct (SFsqrt_core_binary _ _ _ _) as [[mz ez] lz].
  apply binary_round_aux_sign. reflexivity.
Qed.

(* a value with a set sign bit (or a zero, or NaN) is not above zero *)
Lemma has_sign_true_not_positive (v : spec_float) :
  has_sign true v = true -> SFltb (S754_zero false) v = false.
Proof.
  destruct v as [s|s| |s m e]; cbn [has_sign]; intros H; try reflexivity;
    destruct s; try discriminate H; reflexivity.
Qed.



(** ** Sign bits through the vector helpers *)

Section Binary32Signs.

Variables cosf sinf : spec_float -> spec_float.
Context {RS : Random (B32 cosf sinf)}.
Local Open Scope float_scope.

Ltac b32 :=
  change (@fmul (B32 cosf sinf)) with (SFmul prec32 emax32) in *;
  change (@fadd (B32 cosf sinf)) with (SFadd prec32 emax32) in *;
  change (@fdiv (B32 cosf sinf)) with (SFdiv prec32 emax32) in *;
  change (@fsqrt (B32 cosf sinf)) with (SFsqrt prec32 emax32) in *;
  change (@fneg (B32 cosf sinf)) with SFopp in *;
  change (@fltb (B32 cosf sinf)) with SFltb in *;
  change (@fleb (B32 cosf sinf)) with SFleb in *.

Lemma b32_vlen_sign_clear (v : Vector2f (B32 cosf sinf)) :
  sign_clear (vlen v) = true.
Proof.
  unfold vlen. b32.
  apply sign_clear_sqrt, sign_clear_add; apply SFmul_self_sign.
Qed.

Lemma b32_vnorm_has_sign (s t : bool) (v : Vector2f (B32 cosf sinf)) :
  has_sign s (x v) = true -> has_sign t (y v) = true ->
  has_sign s (x (vnorm v)) = true /\ has_sign t (y (vnorm v)) = true.
Proof.
  intros Hx Hy. unfold vnorm.
  destruct (vlen v <=? lit 1 1000000); cbn [x y]; [split; reflexivity|].
  b32. split; apply has_sign_div; try assumption; apply b32_vlen_sign_clear.
Qed.

Lemma b32_vneg_has_sign (s t : bool) (v : Vector2f (B32 cosf sinf)) :
  has_sign s (x v) = true -> has_sign t (y v) = true ->
  has_sign (negb s) (x (vneg v)) = true /\ has_sign (negb t) (y (vneg v)) = true.
Proof.
  intros Hx Hy. unfold vneg. cbn [x y]. b32. split; apply has_sign_opp; assumption.
Qed.

Lemma b32_vscale_has_sign (s t : bool) (v : Vector2f (B32 cosf sinf)) :
  has_sign s (x v) = true -> has_sign t (y v) = true ->
  has_sign s (x (vscale v (of_int 260))) = true /\
  has_sign t (y (vscale v (of_int 260))) = true.
Proof.
  intros Hx Hy. unfold vscale. cbn [x y]. b32.
  change (@of_int (B32 cosf sinf) 260) with (S754_finite false 8519680 (-15)).
  split.
  - rewrite <- (xorb_false_r s). apply has_sign_mul; [assumption | reflexivity].
  - rewrite <- (xorb_false_r t). apply has_sign_mul; [assumption | reflexivity].
Qed.

(* the dot product of two vectors whose components agree in sign, or are
   opposed in sign, on both axes *)
Lemma b32_vdot_has_sign (q s s' t t' : bool) (a b : Vector2f (B32 cosf sinf)) :
  has_sign s (x a) = true -> has_sign s' (x b) = true ->
  has_sign t (y a) = true -> has_sign t' (y b) = true ->
  xorb s s' = q -> xorb t t' = q ->
  has_sign q (vdot a b) = true.
Proof.
  intros Hxa Hxb Hya Hyb Hs Ht. unfold vdot. b32.
  apply has_sign_add; [rewrite <- Hs | rewrite <- Ht];
    apply has_sign_mul; assumption.
Qed.

Lemma b32_signf_plus (v : @F (B32 cosf sinf)) :
  has_sign false v = true -> signf v = 1%Z \/ is_nan v = true.
Proof.
  unfold signf. b32.
  destruct v as [s|s| |s m e]; cbn [has_sign is_nan]; intros H;
    try (right; reflexivity); left; destruct s; try discriminate H; reflexivity.
Qed.

Lemma b32_signf_minus (v : @F (B32 cosf sinf)) :
  has_sign true v = true -> signf v = (-1)%Z \/ is_zero v = true.
Proof.
  unfold signf. b32.
  destruct v as [s|s| |s m e]; cbn [has_sign is_zero]; intros H;
    try (right; reflexivity); left; try destruct s; try discriminate H;
    reflexivity.
Qed.

(* normalising the zero vector, of either sign *)
Lemma b32_vnorm_zero (s t : bool) :
  vnorm (V2 (A:=B32 cosf sinf) (S754_zero s) (S754_zero t)) = V2 f0 f0.
Proof. destruct s, t; reflexivity. Qed.

(* a degenerate vector and its negation normalise to the zero vector; for
   any other vector negation commutes with normalisation bit for bit *)
Lemma b32_vnorm_vneg_cases (v : Vector2f (B32 cosf sinf)) :
  vnorm (vneg v)
  = if vlen v <=? lit 1 1000000 then V2 f0 f0 else vneg (vnorm v).
Proof.
  destruct (vlen v <=? lit 1 1000000) eqn:H.
  - unfold vnorm. rewrite b32_vlen_vneg, H. reflexivity.
  - apply b32_vnorm_vneg, H.
Qed.

Lemma b32_vnorm_vnorm_vneg (v : Vector2f (B32 cosf sinf)) :
  vnorm (vnorm (vneg v)) = vnorm (vneg (vnorm v)).
Proof.
  rewrite b32_vnorm_vneg_cases.
  destruct (vlen v <=? lit 1 1000000) eqn:H; [|reflexivity].
  assert (E : vnorm v = V2 f0 f0) by (unfold vnorm; rewrite H; reflexivity).
  rewrite E.
  change (V2 (A:=B32 cosf sinf) f0 f0)
    with (V2 (A:=B32 cosf sinf) (S754_zero false) (S754_zero false)).
  unfold vneg. cbn [x y]. b32. cbn [SFopp negb].
  rewrite !b32_vnorm_zero. reflexivity.
Qed.


(* the dot product of a normalised vector with the normalisation of its
   normalised negation is never above zero *)
Lemma b32_opposed_dot (v : Vector2f (B32 cosf sinf)) :
  (f0 <? vdot (vnorm v) (vnorm (vnorm (vneg v)))) = false.
Proof.
  destruct (has_sign_some (x v)) as [s Hs], (has_sign_some (y v)) as [t Ht].
  destruct (b32_vnorm_has_sign _ _ v Hs Ht) as [H1 H2].
  destruct (b32_vneg_has_sign _ _ v Hs Ht) as [N1 N2].
  destruct (b32_vnorm_has_sign _ _ _ N1 N2) as [M1 M2].
  destruct (b32_vnorm_has_sign _ _ _ M1 M2) as [K1 K2].
  apply has_sign_true_not_positive.
  apply (@b32_vdot_has_sign true s (negb s) t (negb t)); try assumption;
    [destruct s | destruct t]; reflexivity.
Qed.

End Binary32Signs.

(** ** Back-to-back kinematics and forced spin opposition *)

Section Binary32Opposition.

Variables cosf sinf : spec_float -> spec_float.
Context {RS : Random (B32 cosf sinf)}.
Local Open Scope float_scope.

(* sign bits of the four vectors of a generated event, relative to the sign
   bits [s], [t] of the electron's direction *)
Lemma makeEvent_signs_b32 (r : Rng) (o : Vector2f (B32 cosf sinf)) (bias : F)
  (m : Mode) :
  exists s t : bool,
    let u := fst (u01 (snd (angleDist r))) in
    let ev := fst (makeEvent r o bias m) in
    let se := if u <? bias then negb s else s in
    let te := if u <? bias then negb t else t in
    let sn := match m with SpinOnly => negb se | _ => negb s end in
    let tn := match m with SpinOnly => negb te | _ => negb t end in
    (has_sign s (x ev.(electron).(vel)) = true /\
     has_sign t (y ev.(electron).(vel)) = true) /\
    (has_sign (negb s) (x ev.(antinu).(vel)) = true /\
     has_sign (negb t) (y ev.(antinu).(vel)) = true) /\
    (has_sign se (x ev.(electron).(spinDir)) = true /\
     has_sign te (y ev.(electron).(spinDir)) = true) /\
    (has_sign sn (x ev.(antinu).(spinDir)) = true /\
     has_sign tn (y ev.(antinu).(spinDir)) = true).
Proof.
  destruct (makeEvent_kinematics r o bias m) as (Ve & Vn & Se & Sn).
  cbv zeta in Ve, Vn, Se, Sn.
  set (d := vnorm (V2 (fcos (fst (angleDist r))) (fsin (fst (angleDist r))))) in *.
  destruct (has_sign_some (x d)) as [s Hs], (has_sign_some (y d)) as [t Ht].
  exists s, t. cbv zeta.
  pose proof (b32_vneg_has_sign _ _ d Hs Ht) as [N1 N2].
  pose proof (b32_vnorm_has_sign _ _ _ N1 N2) as [M1 M2].
  pose proof (b32_vnorm_has_sign _ _ _ Hs Ht) as [P1 P2].
  split; [rewrite Ve; apply b32_vscale_has_sign; assumption|].
  split; [rewrite Vn; apply b32_vscale_has_sign; assumption|].
  assert (HE : has_sign (if fst (u01 (snd (angleDist r))) <? bias then negb s else s)
                 (x (spinDir (electron (fst (makeEvent r o bias m))))) = true /\
               has_sign (if fst (u01 (snd (angleDist r))) <? bias then negb t else t)
                 (y (spinDir (electron (fst (makeEvent r o bias m))))) = true).
  { rewrite Se. destruct (_ <? bias); split; assumption. }
  split; [exact HE|].
  rewrite Sn. destruct m.
  - destruct HE as [E1 E2].
    pose proof (b32_vneg_has_sign _ _ _ E1 E2) as [F1 F2].
    apply b32_vnorm_has_sign; assumption.
  - apply b32_vnorm_has_sign; assumption.
  - apply b32_vnorm_has_sign; assumption.
Qed.



End Binary32Opposition.





(** ** The forced spin pair through the loop, and the handedness *)

Section Binary32Spins.

Variables cosf sinf : spec_float -> spec_float.
Context {RS : Random (B32 cosf sinf)}.
Local Open Scope float_scope.

Lemma spin_forced_respawn (s : State) : spin_forced (respawn s).
Proof.
  unfold spin_forced, respawn.
  pose proof (makeEvent_kinematics (rng s) origin (leftHandBias s) (mode s))
    as (_ & _ & _ & Sn).
  cbv zeta in Sn.
  destruct (makeEvent _ _ _ _) as [ev r']. cbn [mode current fst] in *.
  intros Hm. rewrite Hm in Sn. exact Sn.
Qed.

Lemma spin_forced_frame (s : State) (d : @F (B32 cosf sinf)) (evs : list Event)
  (m : Vector2f (B32 cosf sinf)) :
  spin_forced s -> spin_forced (fst (frame s d evs m)).
Proof.
  apply (frame_preserves (fun s => spin_forced s)).
  - intros s0 b H; exact H.
  - intros s0 v H; exact H.
  - intros s0 e H. destruct e as [|k|]; cbn [handleEvent]; try exact H.
    destruct k; cbn [handleKey]; try apply spin_forced_respawn; try exact H.
    destruct (paused s0); exact H.
  - intros s0 dt H. unfold updateTiming. destruct (dt >? f0); [|exact H].
    cbn [timeAlive duration].
    match goal with |- context [if ?c then _ else _] => destruct c end;
      [apply spin_forced_respawn | exact H].
  - intros s0 dt H Hm. specialize (H Hm).
    cbn [stepParticles current setCurrent mode electron antinu].
    rewrite !stepParticle_spinDir.
    destruct (dt <=? f0); [exact H|].
    rewrite H. apply b32_vnorm_vnorm_vneg.
Qed.

Lemma spin_forced_run (r : Rng)
  (inputs : list (@F (B32 cosf sinf) * list Event * Vector2f (B32 cosf sinf))) :
  spin_forced (fst (run (initState r) inputs)).
Proof.
  apply (run_preserves (fun s => spin_forced s)).
  - intros s d evs m. apply spin_forced_frame.
  - unfold spin_forced, initState.
    pose proof (makeEvent_kinematics r origin (lit 85 100) SpinOnly)
      as (_ & _ & _ & Sn).
    cbv zeta in Sn.
    destruct (makeEvent _ _ _ _) as [ev r']. cbn [mode current fst] in *.
    intros _. exact Sn.
Qed.

(** X9 (binary32, every math library).  In every frame of every run that
    ends in SpinOnly mode, whatever keys were pressed and although every
    integration step renormalises both spins, the antineutrino's spin is the
    normalisation of the negated electron spin, and the spin dot product the
    frame evaluates is not above zero (it is negative, a zero or NaN). *)
Theorem spin_only_dot_never_positive (r : Rng)
  (inputs : list (@F (B32 cosf sinf) * list Event * Vector2f (B32 cosf sinf)))
  (d : @F (B32 cosf sinf)) (evs : list Event) (m : Vector2f (B32 cosf sinf)) :
  let s := fst (run (initState r) inputs) in
  let s' := fst (frame s d evs m) in
  let o := snd (frame s d evs m) in
  mode s' = SpinOnly ->
  spinDir (antinu (current s'))
  = vnorm (vneg (spinDir (electron (current s')))) /\
  (f0 <? spinDot o) = false.
Proof.
  cbv zeta. intros Hm.
  pose proof (@spin_forced_frame _ d evs m (spin_forced_run r inputs) Hm) as Hf.
  split; [exact Hf|].
  destruct (frame_verdict (fst (run (initState r) inputs)) d evs m) as [Hd _].
  cbv zeta in Hd. rewrite Hd, Hf. apply b32_opposed_dot.
Qed.

(** X10 (binary32, every math library).  The helicities of a generated
    event, computed as the loop computes them, have the handedness the
    generator intends up to the two corner cases of the sign test: an
    electron drawn left-handed (uniform draw below the bias) has helicity -1
    unless the dot product is a zero, one drawn right-handed has helicity +1
    unless the dot product is NaN; in the two modes with motion the
    antineutrino has helicity +1 unless the dot product is NaN; in SpinOnly
    mode the override gives the antineutrino the handedness of the
    electron. *)
Theorem helicity_at_generation (r : Rng) (o : Vector2f (B32 cosf sinf))
  (bias : F) (m : Mode) :
  let u := fst (u01 (snd (angleDist r))) in
  let e := (fst (makeEvent r o bias m)).(electron) in
  let n := (fst (makeEvent r o bias m)).(antinu) in
  let dE := vdot (vnorm e.(spinDir)) (vnorm e.(vel)) in
  let dN := vdot (vnorm n.(spinDir)) (vnorm n.(vel)) in
  let hE := helicitySign (vnorm e.(spinDir)) (vnorm e.(vel)) in
  let hN := helicitySign (vnorm n.(spinDir)) (vnorm n.(vel)) in
  (if u <? bias then hE = (-1)%Z \/ is_zero dE = true
   else hE = 1%Z \/ is_nan dE = true) /\
  match m with
  | SpinOnly =>
      if u <? bias then hN = (-1)%Z \/ is_zero dN = true
      else hN = 1%Z \/ is_nan dN = true
  | _ => hN = 1%Z \/ is_nan dN = true
  end.
Proof.
  cbv zeta. unfold helicitySign.
  destruct (makeEvent_signs_b32 r o bias m) as (s & t & Hsig).
  cbv zeta in Hsig.
  destruct Hsig as ((Ve1 & Ve2) & (Vn1 & Vn2) & (Se1 & Se2) & (Sn1 & Sn2)).
  pose proof (b32_vnorm_has_sign _ _ _ Ve1 Ve2) as [A1 A2].
  pose proof (b32_vnorm_has_sign _ _ _ Vn1 Vn2) as [B1 B2].
  pose proof (b32_vnorm_has_sign _ _ _ Se1 Se2) as [C1 C2].
  pose proof (b32_vnorm_has_sign _ _ _ Sn1 Sn2) as [D1 D2].
  split.
  - destruct (fst (u01 (snd (angleDist r))) <? bias).
    + apply b32_signf_minus.
      apply (@b32_vdot_has_sign cosf sinf true (negb s) s (negb t) t);
        try assumption; [destruct s | destruct t]; reflexivity.
    + apply b32_signf_plus.
      apply (@b32_vdot_has_sign cosf sinf false s s t t);
        try assumption; [destruct s | destruct t]; reflexivity.
  - destruct m.
    + destruct (fst (u01 (snd (angleDist r))) <? bias).
      * apply b32_signf_minus. rewrite !negb_involutive in D1, D2.
        apply (@b32_vdot_has_sign cosf sinf true s (negb s) t (negb t));
          try assumption; [destruct s | destruct t]; reflexivity.
      * apply b32_signf_plus.
        apply (@b32_vdot_has_sign cosf sinf false (negb s) (negb s) (negb t) (negb t));
          try assumption; [destruct s | destruct t]; reflexivity.
    + apply b32_signf_plus.
      apply (@b32_vdot_has_sign cosf sinf false (negb s) (negb s) (negb t) (negb t));
        try assumption; [destruct s | destruct t]; reflexivity.
    + apply b32_signf_plus.
      apply (@b32_vdot_has_sign cosf sinf false (negb s) (negb s) (negb t) (negb t));
        try assumption; [destruct s | destruct t]; reflexivity.
Qed.

End Binary32Spins.

(** The first frame of a run with the nearest cosine and sine at the angle
    0.02774496: the mode is still SpinOnly and the spin dot product is not
    above zero. *)
Lemma spin_only_dot_never_positive_witness :
  let s := fst (run (initState (RS:=nearRandom) tt) []) in
  let f := frame s (q32 1 60) [] (origin (A:=N32)) in
  mode (fst f) = SpinOnly /\ fltb (f0 (A:=N32)) (spinDot (snd f)) = false.
Proof.
  cbv zeta.
  assert (Hm : mode (fst (frame (fst (run (initState (RS:=nearRandom) tt) []))
                        (q32 1 60) [] (origin (A:=N32)))) = SpinOnly)
    by reflexivity.
  split; [exact Hm|].
  exact (proj2 (@spin_only_dot_never_positive cosf_near sinf_near nearRandom tt []
                  (q32 1 60) [] (origin (A:=N32)) Hm)).
Defined.
